(** * ANTS: a shallow embedding of the Go port (golang/ants.go, crc.go,
      config.go, loopback/loopback.go) and the properties checked against it.

    Bytes are [Byte.byte]; Go slices that are only read are [list byte];
    the one slice that is re-sliced and appended to in place
    ([Port.readBinaryDataBuffer]) is modelled with its backing array.
    The three goroutines of a port are modelled by the function each one
    runs per event: the resend loop over the control messages it receives,
    the parser step over one byte, the body handlers over one body. *)

From Stdlib Require Import Strings.Byte NArith List Lia Bool String.
From stdpp Require Import base list.
Import ListNotations.

Local Open Scope nat_scope.

(** ** Constants (ants.go, const block) *)

Definition maxMessageSize : nat := 2048.
(** The capacity above which the reassembly buffer is released. *)
Definition releaseCapacity : nat := 10240.
Definition readControlMessageChanSize : nat := 3.
Definition readDataChunkChanSize : nat := 5.
Definition writeDataChunkChanSize : nat := 5.

Definition dle : byte := x10.
Definition umsn : byte := x00.
Definition stx : byte := x02.
Definition etx : byte := x03.
Definition ack : byte := x06.
Definition nak : byte := x15.

(** ** Escape codec (ants.go, escapeDLE / unescapeDLE) *)

(** One iteration of the [for _, b := range data] loop of [escapeDLE]. *)
Definition escape_step (escapedData : list byte) (b : byte) : list byte :=
  if Byte.eqb b dle then escapedData ++ [dle; dle] else escapedData ++ [b].

Definition escapeDLE (data : list byte) : list byte :=
  foldl escape_step [] data.

(** One iteration of the loop of [unescapeDLE]; the state is
    [(unescapedData, isEscaped)]. *)
Definition unescape_step (st : list byte * bool) (b : byte) : list byte * bool :=
  let '(unescapedData, isEscaped) := st in
  if negb isEscaped && Byte.eqb b dle then (unescapedData, true)
  else (unescapedData ++ [b], false).

Definition unescapeDLE (data : list byte) : list byte :=
  fst (foldl unescape_step ([], false) data).

(** The data of [TestDLEEscaping] (ants_test.go). *)
Definition testDLEEscaping_data : list byte :=
  [dle; dle; dle; x00; dle; dle; x00; dle; x00; x00; dle; x00; dle; dle; dle;
   dle; dle; x00; dle; dle; dle; dle; x00; x00; dle; dle; x00; dle; dle; x00;
   dle; dle; dle].

(** What one input byte contributes to the escaped output. *)
Definition escape_byte (b : byte) : list byte :=
  if Byte.eqb b dle then [dle; dle] else [b].

(** ** Errors *)

Inductive error : Type :=
| ErrTimeout                    (* errors.New("timeout reached") *)
| ErrClosed                     (* errors.New("port closed") *)
| ErrIsClosed                   (* loopback: errors.New("loopback is closed") *)
| Errorf (msg : string).        (* fmt.Errorf(...) *)

(** A call either returns or panics (an index out of range, a panic of the
    third-party transport). *)
Inductive outcome (A : Type) : Type :=
| Returned (a : A)
| Panicked.
Arguments Returned {A} a.
Arguments Panicked {A}.

(** ** Checksums (crc.go) *)

Section LittleEndian.
Local Open Scope N_scope.

(** [byte(v)]: the low eight bits. *)
Definition byte_of_N (v : N) : byte :=
  match Byte.of_N (N.land v 255) with Some b => b | None => x00 end.

(** [binary.LittleEndian.PutUint16] on a fresh 2-byte slice. *)
Definition putUint16 (v : N) : list byte :=
  [byte_of_N v; byte_of_N (N.shiftr v 8)].

(** [binary.LittleEndian.PutUint32] on a fresh 4-byte slice. *)
Definition putUint32 (v : N) : list byte :=
  [byte_of_N v; byte_of_N (N.shiftr v 8);
   byte_of_N (N.shiftr v 16); byte_of_N (N.shiftr v 24)].

(** [binary.LittleEndian.Uint16]: reads [b[0]], [b[1]]; an index out of
    range panics ([None]). *)
Definition getUint16 (b : list byte) : option N :=
  match b with
  | b0 :: b1 :: _ => Some (N.lor (Byte.to_N b0) (N.shiftl (Byte.to_N b1) 8))
  | _ => None
  end.

(** [binary.LittleEndian.Uint32]. *)
Definition getUint32 (b : list byte) : option N :=
  match b with
  | b0 :: b1 :: b2 :: b3 :: _ =>
      Some (N.lor (N.lor (N.lor (Byte.to_N b0) (N.shiftl (Byte.to_N b1) 8))
                         (N.shiftl (Byte.to_N b2) 16))
                  (N.shiftl (Byte.to_N b3) 24))
  | _ => None
  end.

Definition crc16Polynomial : N := 0x8408.
Definition crc32Polynomial : N := 0xeb31d82e.

(** The table-driven routines [crc16.MakeTable]/[crc16.Checksum]
    (github.com/howeyc/crc16) and [crc32.MakeTable]/[crc32.Checksum]
    (hash/crc32) are third-party code.  Their reflected algorithm is
    written out here, for a register of [w] bits, so that examples run;
    the results below hold for every implementation of [crcValidator]. *)
Definition crc_table_entry (poly i : N) : N :=
  Nat.iter 8 (fun crc => if N.odd crc then N.lxor (N.shiftr crc 1) poly
                         else N.shiftr crc 1) i.

Definition crc_update_step (poly crc : N) (v : byte) : N :=
  N.lxor (crc_table_entry poly (N.lxor (N.land crc 255) (Byte.to_N v)))
         (N.shiftr crc 8).

Definition crc_Checksum (w poly : N) (data : list byte) : N :=
  let ones := N.ones w in
  N.lxor ones (foldl (crc_update_step poly) ones data).
End LittleEndian.

(** The interface [crcValidator]. [Validate] panics ([None]) when [rawCRC]
    is shorter than the checksum. *)
Record crcValidator : Type := {
  Validate : list byte -> list byte -> option bool;
  Checksum : list byte -> list byte;
}.

(** [crc16Validator]. *)
Definition crc16Validator : crcValidator := {|
  Validate data rawCRC :=
    match getUint16 rawCRC with
    | Some origCRC => Some (N.eqb (crc_Checksum 16 crc16Polynomial data) origCRC)
    | None => None
    end;
  Checksum data := putUint16 (crc_Checksum 16 crc16Polynomial data);
|}.

(** [crc32Validator]. *)
Definition crc32Validator : crcValidator := {|
  Validate data rawCRC :=
    match getUint32 rawCRC with
    | Some origCRC => Some (N.eqb (crc_Checksum 32 crc32Polynomial data) origCRC)
    | None => None
    end;
  Checksum data := putUint32 (crc_Checksum 32 crc32Polynomial data);
|}.

(** ** Configuration (config.go) *)

(** [type CRCType int] with [CRC16 = 1 << iota], [CRC32 = 1 << iota]. *)
Definition CRCType : Type := Z.
Definition CRC16 : CRCType := 1%Z.
Definition CRC32 : CRCType := 2%Z.

Record Config : Type := { DataMessageCRC : CRCType }.

Definition setDefaults (c : Config) : Config :=
  if negb (Z.eqb (DataMessageCRC c) CRC16) && negb (Z.eqb (DataMessageCRC c) CRC32)
  then {| DataMessageCRC := CRC16 |}
  else c.

(** ** Go slices over a store of backing arrays *)

(** A slice header: the backing array (none for a nil slice), the length
    and the capacity.  Every slice of this program starts at index 0 of its
    array. *)
Record slice : Type := { s_arr : option nat; s_len : nat; s_cap : nat }.

(** The backing arrays, by address. *)
Abbreviation heap := (list (list byte)).

Definition nil_slice : slice := {| s_arr := None; s_len := 0; s_cap := 0 |}.

(** The bytes a slice denotes in a store. *)
Definition slice_view (h : heap) (s : slice) : list byte :=
  match s_arr s with
  | Some a => take (s_len s) (default [] (h !! a))
  | None => []
  end.

(** [s[:0]]. *)
Definition reslice0 (s : slice) : slice :=
  {| s_arr := s_arr s; s_len := 0; s_cap := s_cap s |}.

(** Overwrite [arr[off : off+len(xs)]] with [xs]. *)
Definition write_at (off : nat) (xs arr : list byte) : list byte :=
  take off arr ++ xs ++ drop (off + length xs) arr.

Section Append.
(** How much room beyond the requested length the runtime's [growslice]
    reserves, from the old capacity and the requested length. *)
Variable slack : nat -> nat -> nat.

(** The builtin [append(s, xs...)]: in place when the capacity suffices,
    otherwise into a new array that receives the old contents. *)
Definition go_append (h : heap) (s : slice) (xs : list byte) : heap * slice :=
  let n := s_len s + length xs in
  if n <=? s_cap s then
    match s_arr s with
    | Some a =>
        (<[a := write_at (s_len s) xs (default [] (h !! a))]> h,
         {| s_arr := Some a; s_len := n; s_cap := s_cap s |})
    | None => (h, s)
    end
  else
    let c := n + slack (s_cap s) n in
    (h ++ [slice_view h s ++ xs ++ replicate (c - n) x00],
     {| s_arr := Some (length h); s_len := n; s_cap := c |}).
End Append.

(** Growth by doubling, without the allocator's rounding to size classes. *)
Definition doubling_slack (cap n : nat) : nat := 2 * cap - n.

(** Growth by doubling from blocks of at least 8 bytes, the smallest size
    class of the allocator. *)
Definition block8_slack (cap n : nat) : nat := Nat.max 8 (2 * cap) - n.

(** ** The transport: [io.ReadWriteCloser] *)

(** What a call of [Write] does: return [(n, err)] or panic. *)
Inductive write_result : Type :=
| WriteReturn (n : nat) (err : option error)
| WritePanic.

Class ReadWriteCloser (S : Type) : Type := {
  rwc_Read : S -> nat -> S * (list byte * option error);
  rwc_Write : S -> list byte -> S * write_result;
  rwc_Close : S -> S * option error;
}.

(** ** The loopback transport (loopback/loopback.go) *)

Module Loopback.
Record loopback : Type := { buffer : list byte; isClosed : bool }.

Definition New : loopback := {| buffer := []; isClosed := false |}.

(** [Read(p)] with [len(p) = lenp]: returns the bytes copied to [p]. *)
Definition Read (l : loopback) (lenp : nat)
  : loopback * (list byte * option error) :=
  if isClosed l then (l, ([], Some ErrIsClosed))
  else if length (buffer l) =? 0 then (l, ([], None))
  else
    let n := if length (buffer l) <? lenp then length (buffer l) else lenp in
    ({| buffer := drop n (buffer l); isClosed := isClosed l |},
     (take n (buffer l), None)).

Definition Write (l : loopback) (p : list byte) : loopback * write_result :=
  if isClosed l then (l, WriteReturn 0 (Some ErrIsClosed))
  else ({| buffer := buffer l ++ p; isClosed := isClosed l |},
        WriteReturn (length p) None).

Definition Close (l : loopback) : loopback * option error :=
  if isClosed l then (l, Some ErrIsClosed)
  else ({| buffer := buffer l; isClosed := true |}, None).
End Loopback.

#[export] Instance loopback_rwc : ReadWriteCloser Loopback.loopback := {|
  rwc_Read := Loopback.Read;
  rwc_Write := Loopback.Write;
  rwc_Close := Loopback.Close;
|}.

(** ** The port (ants.go) *)

Record controlMessage : Type := { TypeCharacter : byte; MSN : byte }.

(** [Port].  A channel is the list of the values sent on it and not yet
    received, oldest first.  The three channels are bounded
    ([readControlMessageChanSize], [readDataChunkChanSize],
    [writeDataChunkChanSize]): a send on a full channel waits until a
    receive makes room and goes through unchanged then, so the functions
    that send ([Port_Write] and the two body handlers) give the state once
    their send has gone through, and a statement about several sends in a
    row names the room they need.  [closeChan] is closed exactly when
    [isClosed] holds.  The mutexes and [readChan] (bytes reach the parser
    one at a time, see [readByte]) have no field. *)
Record Port (S : Type) : Type := {
  source : S;
  isClosed : bool;
  readBinaryDataBuffer : slice;
  readControlMessageChan : list controlMessage;
  readDataChunkChan : list slice;
  writeDataChunkChan : list (list byte);
  crc16Validator_ : crcValidator;
  dataMessageCRCValidator : crcValidator;
  dataMessageCRCLength : nat;
}.
Arguments source {S} _.
Arguments isClosed {S} _.
Arguments readBinaryDataBuffer {S} _.
Arguments readControlMessageChan {S} _.
Arguments readDataChunkChan {S} _.
Arguments writeDataChunkChan {S} _.
Arguments crc16Validator_ {S} _.
Arguments dataMessageCRCValidator {S} _.
Arguments dataMessageCRCLength {S} _.

Section PortFields.
Context {S : Type}.

Definition set_source (p : Port S) (s : S) : Port S :=
  {| source := s; isClosed := isClosed p;
     readBinaryDataBuffer := readBinaryDataBuffer p;
     readControlMessageChan := readControlMessageChan p;
     readDataChunkChan := readDataChunkChan p;
     writeDataChunkChan := writeDataChunkChan p;
     crc16Validator_ := crc16Validator_ p;
     dataMessageCRCValidator := dataMessageCRCValidator p;
     dataMessageCRCLength := dataMessageCRCLength p |}.

Definition set_isClosed (p : Port S) (b : bool) : Port S :=
  {| source := source p; isClosed := b;
     readBinaryDataBuffer := readBinaryDataBuffer p;
     readControlMessageChan := readControlMessageChan p;
     readDataChunkChan := readDataChunkChan p;
     writeDataChunkChan := writeDataChunkChan p;
     crc16Validator_ := crc16Validator_ p;
     dataMessageCRCValidator := dataMessageCRCValidator p;
     dataMessageCRCLength := dataMessageCRCLength p |}.

Definition set_readBinaryDataBuffer (p : Port S) (s : slice) : Port S :=
  {| source := source p; isClosed := isClosed p;
     readBinaryDataBuffer := s;
     readControlMessageChan := readControlMessageChan p;
     readDataChunkChan := readDataChunkChan p;
     writeDataChunkChan := writeDataChunkChan p;
     crc16Validator_ := crc16Validator_ p;
     dataMessageCRCValidator := dataMessageCRCValidator p;
     dataMessageCRCLength := dataMessageCRCLength p |}.

Definition set_readControlMessageChan (p : Port S) (c : list controlMessage)
  : Port S :=
  {| source := source p; isClosed := isClosed p;
     readBinaryDataBuffer := readBinaryDataBuffer p;
     readControlMessageChan := c;
     readDataChunkChan := readDataChunkChan p;
     writeDataChunkChan := writeDataChunkChan p;
     crc16Validator_ := crc16Validator_ p;
     dataMessageCRCValidator := dataMessageCRCValidator p;
     dataMessageCRCLength := dataMessageCRCLength p |}.

Definition set_readDataChunkChan (p : Port S) (c : list slice) : Port S :=
  {| source := source p; isClosed := isClosed p;
     readBinaryDataBuffer := readBinaryDataBuffer p;
     readControlMessageChan := readControlMessageChan p;
     readDataChunkChan := c;
     writeDataChunkChan := writeDataChunkChan p;
     crc16Validator_ := crc16Validator_ p;
     dataMessageCRCValidator := dataMessageCRCValidator p;
     dataMessageCRCLength := dataMessageCRCLength p |}.

Definition set_writeDataChunkChan (p : Port S) (c : list (list byte))
  : Port S :=
  {| source := source p; isClosed := isClosed p;
     readBinaryDataBuffer := readBinaryDataBuffer p;
     readControlMessageChan := readControlMessageChan p;
     readDataChunkChan := readDataChunkChan p;
     writeDataChunkChan := c;
     crc16Validator_ := crc16Validator_ p;
     dataMessageCRCValidator := dataMessageCRCValidator p;
     dataMessageCRCLength := dataMessageCRCLength p |}.
End PortFields.

Section PortAPI.
Context {S : Type} `{ReadWriteCloser S}.

(** [NewPort(source, config...)]: the port before its goroutines run. *)
Definition NewPort (src : S) (config : list Config) : Port S :=
  let c := match config with
           | c :: _ => c
           | [] => {| DataMessageCRC := 0%Z |}
           end in
  let c := setDefaults c in
  let crc32 := Z.eqb (DataMessageCRC c) CRC32 in
  {| source := src; isClosed := false;
     readBinaryDataBuffer := nil_slice;
     readControlMessageChan := [];
     readDataChunkChan := [];
     writeDataChunkChan := [];
     crc16Validator_ := crc16Validator;
     dataMessageCRCValidator := if crc32 then crc32Validator else crc16Validator;
     dataMessageCRCLength := if crc32 then 4 else 2 |}.

Definition IsClosed (p : Port S) : bool := isClosed p.

(** [Port.Close]. *)
Definition Port_Close (p : Port S) : Port S * option error :=
  if isClosed p then (p, None)
  else
    let p := set_isClosed p true in
    match rwc_Close (source p) with
    | (s, Some _) =>
        (set_source p s, Some (Errorf "failed to close port's source: %v"))
    | (s, None) => (set_source p s, None)
    end.

(** [Port.Write]: on an open port the call returns once
    [p.writeDataChunkChan <- data] has gone through. *)
Definition Port_Write (p : Port S) (data : list byte) : Port S * option error :=
  if isClosed p then (p, Some ErrClosed)
  else (set_writeDataChunkChan p (writeDataChunkChan p ++ [data]), None).

(** [Port.Read].  The [select] statement takes one of the cases that can
    proceed, chosen at random when there are several. *)
Inductive read_case : Type := case_closeChan | case_timeoutChan | case_data.

(** A timer that closes [timeoutChan] exists when a positive timeout was
    passed. *)
Definition timer_created (timeout : list Z) : bool :=
  match timeout with
  | t :: _ => Z.ltb 0 t
  | [] => false
  end.

(** What [Port.Read] returns when [select] takes case [c]; [None] when
    that case cannot proceed.  [fired] tells whether the timer has closed
    [timeoutChan] by then. *)
Definition Port_Read_case (p : Port S) (timeout : list Z) (fired : bool)
    (c : read_case) : option (Port S * (slice * option error)) :=
  match c with
  | case_closeChan =>
      if isClosed p then Some (p, (nil_slice, Some ErrClosed)) else None
  | case_timeoutChan =>
      if timer_created timeout && fired
      then Some (p, (nil_slice, Some ErrTimeout)) else None
  | case_data =>
      match readDataChunkChan p with
      | data :: rest => Some (set_readDataChunkChan p rest, (data, None))
      | [] => None
      end
  end.

(** The results [Port.Read] can return. *)
Definition Port_Read (p : Port S) (timeout : list Z)
    (r : Port S * (slice * option error)) : Prop :=
  exists fired c, Port_Read_case p timeout fired c = Some r.
End PortAPI.

(** ** The sender (ants.go, writeDataMessagesLoop) *)

(** The frame built for one dequeued chunk [data]
    ([case data := <-p.writeDataChunkChan], up to the resend loop). *)
Definition dataMessage (v : crcValidator) (data : list byte) : list byte :=
  (* Escape the data. *)
  let data := escapeDLE data in
  (* Prepend the escaped STX control character. *)
  let data := [dle; stx] ++ data in
  (* Calculate the CRC checksum. *)
  let crc := Checksum v data in
  (* Escape the CRC. *)
  let crc := escapeDLE crc in
  (* Append the CRC. *)
  let data := data ++ crc in
  (* Append the escaped ETX control character. *)
  data ++ [dle; etx].

(** How the work on one chunk ends. *)
Inductive send_outcome (S : Type) : Type :=
| Acked (p : Port S)        (* [break ResendLoop]: on to the next chunk *)
| Exited (p : Port S)       (* write error: port closed, goroutine returns *)
| Waiting (p : Port S).     (* blocked on [<-p.readControlMessageChan] *)
Arguments Acked {S} p.
Arguments Exited {S} p.
Arguments Waiting {S} p.

Section Sender.
Context {S : Type} `{ReadWriteCloser S}.

(** [writeToSource]: a panic of the transport is recovered into an
    error; after a short write the escaped ETX is written and its result
    dismissed. *)
Definition writeToSource (s : S) (data : list byte) : S * option error :=
  match rwc_Write s data with
  | (s, WritePanic) => (s, Some (Errorf "panic: write data to source: %v"))
  | (s, WriteReturn _ (Some _)) =>
      (s, Some (Errorf "failed to write to source: %v"))
  | (s, WriteReturn n None) =>
      if n =? length data then (s, None)
      else
        match rwc_Write s [dle; etx] with
        | (s, WritePanic) =>
            (s, Some (Errorf "panic: write data to source: %v"))
        | (s, WriteReturn _ _) => (s, None)
        end
  end.

(** [closeAndLogError]. *)
Definition closeAndLogError (p : Port S) : Port S := fst (Port_Close p).

(** [ResendLoop], by recursion on the control messages that reach
    [readControlMessageChan] (those already queued and those still to
    come, in order): [cms] is what is left of them.  Each round writes
    [data] and then receives one control message, which leaves the
    channel whatever its type; there is no timeout and no case for
    [closeChan] in this [select]. *)
Fixpoint resendLoop (p : Port S) (data : list byte)
    (cms : list controlMessage) : send_outcome S :=
  match writeToSource (source p) data with
  | (s, Some _) => Exited (closeAndLogError (set_source p s))
  | (s, None) =>
      let p := set_source p s in
      match cms with
      | [] => Waiting (set_readControlMessageChan p [])
      | cm :: rest =>
          (* [cm := <-p.readControlMessageChan] *)
          let p := set_readControlMessageChan p rest in
          if Byte.eqb (TypeCharacter cm) ack
          then Acked p
          else resendLoop p data rest
      end
  end.

(** The case [data := <-p.writeDataChunkChan] of [writeDataMessagesLoop]
    for the chunk at the head of the send queue. *)
Definition sendDataChunk (p : Port S) : option (send_outcome S) :=
  match writeDataChunkChan p with
  | [] => None
  | data :: rest =>
      let p := set_writeDataChunkChan p rest in
      Some (resendLoop p (dataMessage (dataMessageCRCValidator p) data)
              (readControlMessageChan p))
  end.

(** [writeControlMessage]: its body is [// TODO]. *)
Definition writeControlMessage (p : Port S) (ctrlType msn : byte) : Port S := p.
End Sender.

(** ** The receiver (ants.go, readMessagesLoop and the body handlers) *)

Section Receiver.
Context {S : Type} `{ReadWriteCloser S}.
Variable slack : nat -> nat -> nat.

(** [handleReceivedControlMessageBody]. *)
Definition handleReceivedControlMessageBody (p : Port S)
    (typeCharacter : byte) (body : list byte)
  : outcome (Port S * option error) :=
  if negb (length body =? 3)
  then Returned (p, Some (Errorf "invalid control message body"))
  else
    (* Extract the CRC checksum and remove it from the body. *)
    let pos := length body - 2 in
    let crcChecksum := drop pos body in
    let body := take pos body in
    match Validate (crc16Validator_ p) body crcChecksum with
    | None => Panicked
    | Some false =>
        Returned (p, Some (Errorf
          "message body is corrupt: message CRC checksum is invalid"))
    | Some true =>
        match body with
        | pmsn :: _ =>
            let cm := {| TypeCharacter := typeCharacter; MSN := pmsn |} in
            Returned (set_readControlMessageChan p
                        (readControlMessageChan p ++ [cm]), None)
        | [] => Panicked
        end
    end.

(** The body of [handleReceivedDataMessageBody] up to its [return]:
    the new store and port, the returned [err] and the value of [pmsn]
    at that point. *)
Definition dataMessageBody (h : heap) (p : Port S) (body : list byte)
  : outcome (heap * Port S * option error * byte) :=
  (* Set the peer message sequence number to the initial unknown constant. *)
  let pmsn := umsn in
  (* Check for the required minimum body length. *)
  if length body <? 2 + dataMessageCRCLength p
  then Returned (h, p,
         Some (Errorf "invalid data message body: body is too short"), pmsn)
  else
    (* Extract the CRC checksum and remove it from the body. *)
    let pos := length body - dataMessageCRCLength p in
    let crcChecksum := drop pos body in
    let body := take pos body in
    match Validate (dataMessageCRCValidator p) body crcChecksum with
    | None => Panicked
    | Some false =>
        Returned (h, p, Some (Errorf
          "message body is corrupt: message CRC checksum is invalid"), pmsn)
    | Some true =>
        match body with
        | pmsn :: appendData :: binData =>
            if Byte.eqb appendData x00 then
              (* End of binary data transmission. *)
              let '(h, data) :=
                go_append slack h (readBinaryDataBuffer p) binData in
              (* Push the data chunk to the channel. *)
              let p := set_readDataChunkChan p (readDataChunkChan p ++ [data]) in
              (* Clear the binary data chunk buffer. *)
              let p := set_readBinaryDataBuffer p
                         (reslice0 (readBinaryDataBuffer p)) in
              (* Release memory if the capacity of the buffer is huge. *)
              let p := if releaseCapacity <? s_cap (readBinaryDataBuffer p)
                       then set_readBinaryDataBuffer p nil_slice else p in
              Returned (h, p, None, pmsn)
            else
              (* Push the received binary data to the buffer. *)
              let '(h, s) :=
                go_append slack h (readBinaryDataBuffer p) binData in
              Returned (h, set_readBinaryDataBuffer p s, None, pmsn)
        | _ => Panicked
        end
    end.

(** [handleReceivedDataMessageBody]: the body above, then the deferred
    call of [writeControlMessage].  (While panicking the deferred function
    runs too, with [err] still nil; the panic then goes on.) *)
Definition handleReceivedDataMessageBody (h : heap) (p : Port S)
    (body : list byte) : outcome (heap * Port S * option error) :=
  match dataMessageBody h p body with
  | Returned (h, p, err, pmsn) =>
      let p := match err with
               | Some _ => writeControlMessage p nak pmsn
               | None => writeControlMessage p ack pmsn
               end in
      Returned (h, p, err)
  | Panicked => Panicked
  end.

(** The local variables of [readMessagesLoop]; [timerRunning] tells
    whether [timeoutTimer] is running.  [buf] is only read by the
    handlers, which copy from it. *)
Record readState : Type := {
  buf : list byte;
  controlCharacter : byte;
  isControlMessage : bool;
  startCharacterFound : bool;
  byteIsEscaped : bool;
  timerRunning : bool;
}.

Definition readState_init : readState :=
  {| buf := []; controlCharacter := x00; isControlMessage := false;
     startCharacterFound := false; byteIsEscaped := false;
     timerRunning := false |}.

(** The case [<-timeoutTimer.C]. *)
Definition readTimeout (st : readState) : readState :=
  {| buf := []; controlCharacter := x00; isControlMessage := false;
     startCharacterFound := false; byteIsEscaped := false;
     timerRunning := false |}.

(** The case [b := <-p.readChan]. *)
Definition readByte (h : heap) (p : Port S) (st : readState) (b : byte)
  : outcome (heap * Port S * readState) :=
  if negb (byteIsEscaped st) && Byte.eqb b dle then
    (* Set the escaped flag. *)
    Returned (h, p,
      {| buf := buf st; controlCharacter := controlCharacter st;
         isControlMessage := isControlMessage st;
         startCharacterFound := startCharacterFound st;
         byteIsEscaped := true; timerRunning := timerRunning st |})
  else if byteIsEscaped st && negb (startCharacterFound st) then
    (* Check if the byte is a start character, if searching for it. *)
    if Byte.eqb b stx || Byte.eqb b ack || Byte.eqb b nak then
      Returned (h, p,
        {| buf := buf st;
           controlCharacter :=
             if Byte.eqb b stx then controlCharacter st else b;
           isControlMessage := negb (Byte.eqb b stx);
           startCharacterFound := true;
           byteIsEscaped := false; timerRunning := true |})
    else
      (* Discard the byte. *)
      Returned (h, p,
        {| buf := buf st; controlCharacter := controlCharacter st;
           isControlMessage := isControlMessage st;
           startCharacterFound := startCharacterFound st;
           byteIsEscaped := false; timerRunning := timerRunning st |})
  else if byteIsEscaped st && Byte.eqb b etx then
    (* Stop the timer, unescape the buffer, handle the message body. *)
    let body := unescapeDLE (buf st) in
    let st' :=
      {| buf := []; controlCharacter := controlCharacter st;
         isControlMessage := isControlMessage st;
         startCharacterFound := startCharacterFound st;
         byteIsEscaped := false; timerRunning := false |} in
    if isControlMessage st then
      match handleReceivedControlMessageBody p (controlCharacter st) body with
      | Returned (p, _) => Returned (h, p, st')
      | Panicked => Panicked
      end
    else
      match handleReceivedDataMessageBody h p body with
      | Returned (h, p, _) => Returned (h, p, st')
      | Panicked => Panicked
      end
  else
    (* Append the new byte to the message buffer. *)
    let buf' := buf st ++ [b] in
    Returned (h, p,
      {| buf := if maxMessageSize <? length buf' then [] else buf';
         controlCharacter := controlCharacter st;
         isControlMessage := isControlMessage st;
         startCharacterFound := startCharacterFound st;
         byteIsEscaped := false; timerRunning := timerRunning st |}).

(** The parser over a sequence of received bytes. *)
Fixpoint readBytes (h : heap) (p : Port S) (st : readState)
    (bs : list byte) : outcome (heap * Port S * readState) :=
  match bs with
  | [] => Returned (h, p, st)
  | b :: bs =>
      match readByte h p st b with
      | Returned (h, p, st) => readBytes h p st bs
      | Panicked => Panicked
      end
  end.

(** The data handler over a sequence of bodies. *)
Fixpoint handleDataMessageBodies (h : heap) (p : Port S)
    (bodies : list (list byte)) : outcome (heap * Port S) :=
  match bodies with
  | [] => Returned (h, p)
  | body :: bodies =>
      match handleReceivedDataMessageBody h p body with
      | Returned (h, p, _) => handleDataMessageBodies h p bodies
      | Panicked => Panicked
      end
  end.
End Receiver.

(** ** The data frame as the protocol describes it *)

(** Section 3 of the protocol: [STX · MSN · AppendFlag · Payload · CRC · ETX]
    with STX and ETX preceded by DLE, every DLE of the other fields doubled,
    and the CRC taken over the unescaped [STX · MSN · AppendFlag · Payload]. *)
Definition spec_dataFrame (v : crcValidator) (msn appendFlag : byte)
    (payload : list byte) : list byte :=
  let crc := Checksum v ([stx; msn; appendFlag] ++ payload) in
  [dle; stx] ++ escapeDLE ([msn; appendFlag] ++ payload ++ crc) ++ [dle; etx].

(** ** Ports and inputs of the examples *)

(** A fresh port on the loopback transport, CRC-16 by default. *)
Definition loopPort : Port Loopback.loopback := NewPort Loopback.New [].

(** [loopPort] after [Write(data)], with the control messages [cms] on
    their way to [readControlMessageChan]. *)
Definition loopPort_sending (data : list byte) (cms : list controlMessage)
  : Port Loopback.loopback :=
  set_readControlMessageChan (fst (Port_Write loopPort data)) cms.

(** The bytes the transport has received when the work on a chunk ends. *)
Definition wire (o : option (send_outcome Loopback.loopback)) : list byte :=
  match o with
  | Some (Acked p) | Some (Exited p) | Some (Waiting p) =>
      Loopback.buffer (source p)
  | None => []
  end.

(** ** Bodies as the data handler reads them *)

Section Bodies.
Context {S : Type}.

(** The two checks of [handleReceivedDataMessageBody] both pass. *)
Definition valid_body (p : Port S) (body : list byte) : bool :=
  (2 + dataMessageCRCLength p <=? length body)
  && match Validate (dataMessageCRCValidator p)
             (take (length body - dataMessageCRCLength p) body)
             (drop (length body - dataMessageCRCLength p) body) with
     | Some true => true
     | _ => false
     end.

(** [body[1]] and [body[2:]] once the checksum is cut off. *)
Definition body_appendFlag (body : list byte) : option byte := body !! 1.

Definition body_payload (p : Port S) (body : list byte) : list byte :=
  drop 2 (take (length body - dataMessageCRCLength p) body).

(** Two ports with the same checksum configuration. *)
Definition same_config (p p' : Port S) : Prop :=
  dataMessageCRCValidator p' = dataMessageCRCValidator p
  /\ dataMessageCRCLength p' = dataMessageCRCLength p.

(** A frame with [AppendFlag = 0] ends a payload. *)
Definition is_terminal (body : list byte) : bool :=
  match body_appendFlag body with
  | Some flag => Byte.eqb flag x00
  | None => false
  end.
End Bodies.

(** A sequence of bodies after which nothing is pending: it is empty or
    its last frame ended a payload. *)
Definition ends_published (bodies : list (list byte)) : Prop :=
  match last bodies with
  | Some body => is_terminal body = true
  | None => True
  end.

(** The invariant of a slice header in a store: the length is within the
    capacity, and the backing array exists and has the capacity's size. *)
Definition wf_slice (h : heap) (s : slice) : Prop :=
  s_len s <= s_cap s /\
  match s_arr s with
  | Some a => exists arr, h !! a = Some arr /\ length arr = s_cap s
  | None => s_cap s = 0
  end.

(** A body with a CRC-16 that validates, for the examples. *)
Definition body_of (msn appendFlag : byte) (payload : list byte) : list byte :=
  [msn; appendFlag] ++ payload
    ++ Checksum crc16Validator ([msn; appendFlag] ++ payload).

(** The parser state after the bytes [bs], from the initial state. *)
Definition readState_after (bs : list byte) : readState :=
  match readBytes doubling_slack [] loopPort readState_init bs with
  | Returned (_, _, st) => st
  | Panicked => readState_init
  end.

(** C6 as the specification words it, for one step of the parser: an
    escaped byte other than ETX inside a body drops the frame and returns
    the parser to the idle state. *)
Definition spec_escaped_byte_drops_frame (h : heap)
    (p : Port Loopback.loopback) (st : readState) (b : byte) : Prop :=
  startCharacterFound st = true -> byteIsEscaped st = true -> b <> etx ->
  exists h' p' st',
    readByte doubling_slack h p st b = Returned (h', p', st')
    /\ startCharacterFound st' = false /\ buf st' = [].

(** ** Ports as [NewPort] configures them *)

(** The checksum fields as [NewPort] sets them: the control validator is
    the CRC-16 one, and the data validator comes with its own length. *)
Definition configured {S : Type} (p : Port S) : Prop :=
  crc16Validator_ p = crc16Validator
  /\ ((dataMessageCRCValidator p = crc16Validator
       /\ dataMessageCRCLength p = 2)
      \/ (dataMessageCRCValidator p = crc32Validator
          /\ dataMessageCRCLength p = 4)).

(** * Proofs *)

(** Case analysis on the condition of the first [if] of a hypothesis. *)
Ltac case_if_in H :=
  match type of H with
  | context [if ?c then _ else _] => destruct c eqn:?
  end.

(** ** Escape codec: lemmas *)

Section EscapeCodec.

Lemma escape_loop_acc (data acc : list byte) :
  foldl escape_step acc data = acc ++ concat (map escape_byte data).
Proof.
  revert acc; induction data as [|b data IH]; intros acc; simpl.
  - by rewrite app_nil_r.
  - rewrite IH. unfold escape_step, escape_byte.
    destruct (Byte.eqb b dle); by rewrite <- app_assoc.
Qed.

Lemma escapeDLE_concat (data : list byte) :
  escapeDLE data = concat (map escape_byte data).
Proof. unfold escapeDLE. by rewrite escape_loop_acc. Qed.

Lemma escapeDLE_cons (b : byte) (data : list byte) :
  escapeDLE (b :: data) = escape_byte b ++ escapeDLE data.
Proof. by rewrite !escapeDLE_concat. Qed.

Lemma escapeDLE_app (xs ys : list byte) :
  escapeDLE (xs ++ ys) = escapeDLE xs ++ escapeDLE ys.
Proof. by rewrite !escapeDLE_concat, map_app, concat_app. Qed.

Lemma unescape_escape_byte (out : list byte) (b : byte) :
  foldl unescape_step (out, false) (escape_byte b) = (out ++ [b], false).
Proof.
  unfold escape_byte. destruct (Byte.eqb b dle) eqn:E; simpl.
  - apply Byte.byte_dec_bl in E. by subst b.
  - by rewrite E.
Qed.

Lemma unescape_loop_escape (data out : list byte) :
  foldl unescape_step (out, false) (escapeDLE data) = (out ++ data, false).
Proof.
  revert out; induction data as [|b data IH]; intros out.
  - simpl. by rewrite app_nil_r.
  - rewrite escapeDLE_cons, foldl_app, unescape_escape_byte, IH.
    by rewrite <- app_assoc.
Qed.

End EscapeCodec.

(** C8: for every byte sequence [x], [unescapeDLE (escapeDLE x) = x], where
    [escapeDLE] maps DLE to DLE DLE and every other byte to itself, and
    [unescapeDLE] scans left to right with one escape bit. *)
Theorem unescapeDLE_escapeDLE (x : list byte) :
  unescapeDLE (escapeDLE x) = x.
Proof. unfold unescapeDLE. by rewrite unescape_loop_escape. Qed.

(** [TestDLEEscaping] (ants_test.go) passes. *)
Example TestDLEEscaping :
  unescapeDLE (escapeDLE testDLEEscaping_data) = testDLEEscaping_data.
Proof. vm_compute. reflexivity. Qed.

(** ** The sender *)

Section SenderFacts.

Lemma length_escapeDLE (data : list byte) :
  length data <= length (escapeDLE data).
Proof.
  induction data as [|b data IH]; [done|].
  rewrite escapeDLE_cons, length_app. unfold escape_byte.
  destruct (Byte.eqb b dle); simpl; lia.
Qed.

(** The layout of the frame the sender builds, for every validator. *)
Lemma dataMessage_layout (v : crcValidator) (data : list byte) :
  dataMessage v data =
    [dle; stx] ++ escapeDLE data
      ++ escapeDLE (Checksum v ([dle; stx] ++ escapeDLE data)) ++ [dle; etx].
Proof. unfold dataMessage. by rewrite <- !app_assoc. Qed.

Lemma length_Checksum_crc16 (data : list byte) :
  length (Checksum crc16Validator data) = 2.
Proof. reflexivity. Qed.

(** The frame of the protocol has at least eight bytes around the payload. *)
Lemma spec_dataFrame_crc16_length (msn appendFlag : byte) (payload : list byte) :
  length payload + 8
    <= length (spec_dataFrame crc16Validator msn appendFlag payload).
Proof.
  unfold spec_dataFrame. rewrite !length_app.
  pose proof (length_escapeDLE
    ([msn; appendFlag] ++ payload
       ++ Checksum crc16Validator ([stx; msn; appendFlag] ++ payload))) as Hlen.
  rewrite !length_app, length_Checksum_crc16 in Hlen.
  change (length [dle; stx]) with 2. change (length [dle; etx]) with 2.
  change (length [msn; appendFlag]) with 2 in Hlen. lia.
Qed.

Context {S : Type} `{ReadWriteCloser S}.

(** An ACK ends the resend loop whatever sequence number it carries. *)
Lemma resendLoop_any_ack (p : Port S) (data : list byte) (s : S)
    (cm : controlMessage) (rest : list controlMessage) :
  writeToSource (source p) data = (s, None) ->
  TypeCharacter cm = ack ->
  resendLoop p data (cm :: rest)
    = Acked (set_readControlMessageChan (set_source p s) rest).
Proof. intros Hw Hack. simpl. by rewrite Hw, Hack. Qed.

(** Any other control message is received too, and makes the loop write
    the same bytes again. *)
Lemma resendLoop_not_ack (p : Port S) (data : list byte) (s : S)
    (cm : controlMessage) (rest : list controlMessage) :
  writeToSource (source p) data = (s, None) ->
  TypeCharacter cm <> ack ->
  resendLoop p data (cm :: rest)
    = resendLoop (set_readControlMessageChan (set_source p s) rest) data rest.
Proof.
  intros Hw Hnak. simpl. rewrite Hw.
  destruct (Byte.eqb (TypeCharacter cm) ack) eqn:E; [|done].
  by apply Byte.byte_dec_bl in E.
Qed.

(** With no control message arriving the loop has written once and waits:
    nothing makes it write again. *)
Lemma resendLoop_no_reply (p : Port S) (data : list byte) (s : S) :
  writeToSource (source p) data = (s, None) ->
  resendLoop p data [] = Waiting (set_readControlMessageChan (set_source p s) []).
Proof. intros Hw. simpl. by rewrite Hw. Qed.

End SenderFacts.

(** C1 (the code departs from the claim): for the payload [0x41] the sender
    writes [DLE STX 0x41 CRC DLE ETX], a frame with neither MSN nor
    AppendFlag, which is not the frame of the protocol for any MSN and
    AppendFlag; and for the payload [DLE] the CRC field is the checksum of
    the escaped bytes [DLE STX DLE DLE]. *)
Theorem sender_frame_lacks_msn_and_flag :
  wire (sendDataChunk (loopPort_sending [x41] [{| TypeCharacter := ack; MSN := x00 |}]))
    = [x10; x02; x41; x64; x23; x10; x03]
  /\ (forall msn appendFlag,
        wire (sendDataChunk
                (loopPort_sending [x41] [{| TypeCharacter := ack; MSN := x00 |}]))
          <> spec_dataFrame crc16Validator msn appendFlag [x41])
  /\ dataMessage crc16Validator [x10]
       = [x10; x02; x10; x10] ++ Checksum crc16Validator [x10; x02; x10; x10]
           ++ [x10; x03].
Proof.
  split; [vm_compute; reflexivity|]. split; [|vm_compute; reflexivity].
  intros msn appendFlag Heq. apply (f_equal length) in Heq.
  pose proof (spec_dataFrame_crc16_length msn appendFlag [x41]) as Hlen.
  rewrite <- Heq in Hlen. vm_compute in Hlen. lia.
Qed.

(** C2 (the code departs from the claim): a payload of 2878 bytes goes out
    as one frame of 2884 bytes that holds all of it, not as three frames of
    1024, 1024 and 830 payload bytes. *)
Theorem sender_does_not_fragment :
  wire (sendDataChunk
          (loopPort_sending (repeat x00 2878) [{| TypeCharacter := ack; MSN := x00 |}]))
    = [dle; stx] ++ repeat x00 2878
        ++ Checksum crc16Validator ([dle; stx] ++ repeat x00 2878) ++ [dle; etx]
  /\ length (wire (sendDataChunk
          (loopPort_sending (repeat x00 2878) [{| TypeCharacter := ack; MSN := x00 |}])))
     = 2884.
Proof. split; vm_compute; reflexivity. Qed.

(** C3 (the code departs from the claim): two chunks [0x00 0x00] sent one
    after the other give two byte-identical frames, and the byte after
    [DLE STX], where the receiver reads the MSN, is [0x00], the UMSN. *)
Theorem sender_has_no_send_counter :
  let cm := {| TypeCharacter := ack; MSN := x00 |} in
  let p := set_readControlMessageChan
             (fst (Port_Write (fst (Port_Write loopPort [x00; x00])) [x00; x00]))
             [cm; cm] in
  let frame := dataMessage crc16Validator [x00; x00] in
  match sendDataChunk p with
  | Some (Acked p1) => wire (sendDataChunk p1) = frame ++ frame
  | _ => False
  end
  /\ frame !! 2 = Some umsn.
Proof. split; vm_compute; reflexivity. Qed.

(** C4 (the code departs from the claim): an ACK carrying MSN 10 ends the
    resend loop after one write of the frame although no frame carries that
    number, and when no control message arrives the frame has been written
    once and the loop waits: no timeout makes it write again. *)
Theorem resend_loop_accepts_any_ack_and_never_times_out :
  let frame := dataMessage crc16Validator [x41] in
  match sendDataChunk
          (loopPort_sending [x41] [{| TypeCharacter := ack; MSN := x0a |}]) with
  | Some (Acked p) => Loopback.buffer (source p) = frame
  | _ => False
  end
  /\ match sendDataChunk (loopPort_sending [x41] []) with
     | Some (Waiting p) => Loopback.buffer (source p) = frame
     | _ => False
     end
  /\ match sendDataChunk
            (loopPort_sending [x41] [{| TypeCharacter := nak; MSN := x00 |};
                                     {| TypeCharacter := ack; MSN := x0a |}]) with
     | Some (Acked p) => Loopback.buffer (source p) = frame ++ frame
     | _ => False
     end.
Proof. vm_compute. repeat split. Qed.

(** ** The receiver: the data handler *)

Section DataHandler.
Context {S : Type} `{ReadWriteCloser S}.
Variable slack : nat -> nat -> nat.

(** A body that fails one of the two checks makes the handler return an
    error with [pmsn] still the UMSN, the store and the port untouched. *)
Lemma dataMessageBody_invalid (h : heap) (p : Port S) (body : list byte) :
  valid_body p body = false ->
  dataMessageBody slack h p body = Panicked
  \/ exists msg, dataMessageBody slack h p body
                   = Returned (h, p, Some (Errorf msg), umsn).
Proof.
  unfold valid_body, dataMessageBody. intros Hv.
  destruct (length body <? 2 + dataMessageCRCLength p) eqn:Hlen.
  - right. by eexists.
  - destruct (Validate _ _ _) as [[|]|] eqn:Hval.
    + apply Nat.ltb_ge in Hlen. apply Nat.leb_le in Hlen.
      rewrite Hlen in Hv. discriminate.
    + right. by eexists.
    + by left.
Qed.

(** The handler never writes to the transport and never touches the
    other channels or the configuration. *)
Lemma handleReceivedDataMessageBody_frame (h h' : heap) (p p' : Port S)
    (body : list byte) (err : option error) :
  handleReceivedDataMessageBody slack h p body = Returned (h', p', err) ->
  source p' = source p /\ isClosed p' = isClosed p
  /\ readControlMessageChan p' = readControlMessageChan p
  /\ writeDataChunkChan p' = writeDataChunkChan p
  /\ dataMessageCRCValidator p' = dataMessageCRCValidator p
  /\ dataMessageCRCLength p' = dataMessageCRCLength p.
Proof.
  unfold handleReceivedDataMessageBody, dataMessageBody, writeControlMessage.
  intros Hrun.
  destruct (length body <? 2 + dataMessageCRCLength p);
    [by inversion Hrun; subst|].
  destruct (Validate _ _ _) as [[|]|]; [| by inversion Hrun; subst | done].
  destruct (take _ body) as [|pmsn [|appendData binData]]; [done|done|].
  destruct (Byte.eqb appendData x00);
    destruct (go_append slack h (readBinaryDataBuffer p) binData) as [h1 s1];
    cbv beta iota zeta in Hrun.
  - case_if_in Hrun; by inversion Hrun; subst.
  - by inversion Hrun; subst.
Qed.

End DataHandler.

(** C10: a body that fails validation (shorter than [2 + crc_len], or with
    a checksum that does not validate) leaves the store, and with it the
    contents of the reassembly buffer, the buffer's header and the receive
    queue exactly as they were. *)
Theorem invalid_body_leaves_buffer_and_queue {S : Type} `{ReadWriteCloser S}
    (slack : nat -> nat -> nat) (h : heap) (p : Port S) (body : list byte) :
  length body < 2 + dataMessageCRCLength p
  \/ Validate (dataMessageCRCValidator p)
       (take (length body - dataMessageCRCLength p) body)
       (drop (length body - dataMessageCRCLength p) body) = Some false ->
  exists h' p' err,
    handleReceivedDataMessageBody slack h p body = Returned (h', p', Some err)
    /\ h' = h
    /\ readBinaryDataBuffer p' = readBinaryDataBuffer p
    /\ slice_view h' (readBinaryDataBuffer p') = slice_view h (readBinaryDataBuffer p)
    /\ readDataChunkChan p' = readDataChunkChan p.
Proof.
  intros Hbad. unfold handleReceivedDataMessageBody, dataMessageBody.
  destruct (length body <? 2 + dataMessageCRCLength p) eqn:Hlen.
  - by eexists h, p, _.
  - destruct Hbad as [Hshort|Hcrc].
    + apply Nat.ltb_ge in Hlen. lia.
    + rewrite Hcrc. by eexists h, p, _.
Qed.

Lemma invalid_body_leaves_buffer_and_queue_witness :
  exists h' p' err,
    handleReceivedDataMessageBody doubling_slack [] loopPort [x01; x00; x41; x00; x00]
      = Returned (h', p', Some err)
    /\ h' = []
    /\ readBinaryDataBuffer p' = readBinaryDataBuffer loopPort
    /\ slice_view h' (readBinaryDataBuffer p')
       = slice_view [] (readBinaryDataBuffer loopPort)
    /\ readDataChunkChan p' = readDataChunkChan loopPort.
Proof.
  apply (invalid_body_leaves_buffer_and_queue doubling_slack [] loopPort
           [x01; x00; x41; x00; x00]).
  right. vm_compute. reflexivity.
Defined.

Section DataHandlerReply.
Context {S : Type} `{ReadWriteCloser S}.
Variable slack : nat -> nat -> nat.

(** What the deferred call of [writeControlMessage] is given after a body
    that passes both checks: no error, and [pmsn = body[0]]. *)
Lemma dataMessageBody_valid_reply (h : heap) (p : Port S) (body : list byte) :
  valid_body p body = true ->
  exists h' p' pmsn,
    dataMessageBody slack h p body = Returned (h', p', None, pmsn)
    /\ body !! 0 = Some pmsn.
Proof.
  unfold valid_body, dataMessageBody. intros Hv.
  apply andb_prop in Hv as [Hlen Hcrc]. apply Nat.leb_le in Hlen.
  destruct (length body <? 2 + dataMessageCRCLength p) eqn:Hlt;
    [apply Nat.ltb_lt in Hlt; lia|].
  destruct (Validate _ _ _) as [[|]|]; try discriminate.
  set (pos := length body - dataMessageCRCLength p).
  assert (Hpos : length (take pos body) = pos)
    by (apply length_take_le; unfold pos; lia).
  assert (Hhead : take pos body !! 0 = body !! 0)
    by (apply lookup_take_lt; unfold pos; lia).
  destruct (take pos body) as [|pmsn [|appendData binData]];
    [simpl in Hpos; unfold pos in Hpos; lia
    |simpl in Hpos; unfold pos in Hpos; lia|].
  destruct (Byte.eqb appendData x00);
    destruct (go_append slack h (readBinaryDataBuffer p) binData) as [h1 s1];
    eexists _, _, pmsn; split; try reflexivity; by rewrite <- Hhead.
Qed.

End DataHandlerReply.

(** C5 (the code departs from the claim): for a valid body with MSN 7 the
    handler returns without error and for a body with a wrong checksum it
    returns an error, and in both cases the transport has received nothing:
    [writeControlMessage] writes no control frame. *)
Theorem data_handler_sends_no_control_frame :
  match handleReceivedDataMessageBody doubling_slack [] loopPort
          (body_of x07 x00 [x41]) with
  | Returned (_, p, err) => err = None /\ Loopback.buffer (source p) = []
  | Panicked => False
  end
  /\ match handleReceivedDataMessageBody doubling_slack [] loopPort
             [x07; x00; x41; x00; x00] with
     | Returned (_, p, err) =>
         (exists e, err = Some e) /\ Loopback.buffer (source p) = []
     | Panicked => False
     end.
Proof. vm_compute. repeat split. by eexists. Qed.

(** ** The receiver: the parser *)

(** One step of the parser on an escaped byte other than ETX, in a body. *)
Lemma readByte_escaped_in_body {S : Type} `{ReadWriteCloser S}
    (slack : nat -> nat -> nat) (h : heap) (p : Port S) (st : readState)
    (b : byte) :
  startCharacterFound st = true ->
  byteIsEscaped st = true ->
  Byte.eqb b etx = false ->
  readByte slack h p st b =
    Returned (h, p,
      {| buf := if maxMessageSize <? length (buf st ++ [b]) then []
                else buf st ++ [b];
         controlCharacter := controlCharacter st;
         isControlMessage := isControlMessage st;
         startCharacterFound := true;
         byteIsEscaped := false;
         timerRunning := timerRunning st |}).
Proof.
  intros Hstart Hesc Hb. unfold readByte. by rewrite Hstart, Hesc, Hb.
Qed.

(** The claim C6 fails on the code: after [DLE STX 0x01 DLE] the parser is
    in a body with the escape flag set, and the escaped byte [DLE] that
    follows (the second half of a doubled DLE) is appended to the body. *)
Lemma escaped_byte_in_body_is_kept :
  ~ spec_escaped_byte_drops_frame [] loopPort
      (readState_after [dle; stx; x01; dle]) dle.
Proof.
  unfold spec_escaped_byte_drops_frame. intros Hspec.
  assert (Hstart : startCharacterFound (readState_after [dle; stx; x01; dle])
                   = true) by (vm_compute; reflexivity).
  assert (Hesc : byteIsEscaped (readState_after [dle; stx; x01; dle]) = true)
    by (vm_compute; reflexivity).
  assert (Hb : dle <> etx) by (intros E; discriminate E).
  destruct (Hspec Hstart Hesc Hb) as (h' & p' & st' & Hstep & Hidle & _).
  rewrite (readByte_escaped_in_body doubling_slack [] loopPort _ dle
             Hstart Hesc eq_refl) in Hstep.
  injection Hstep as _ _ Hst. subst st'. discriminate Hidle.
Qed.

(** C6, amended: while the parser accumulates a body, an escaped byte that
    is not ETX is appended to the body buffer as an ordinary byte, the
    escape flag is cleared and the parser stays in the body; a buffer grown
    beyond [maxMessageSize] is emptied, still without leaving the body. *)
Theorem escaped_non_etx_byte_is_appended {S : Type} `{ReadWriteCloser S}
    (slack : nat -> nat -> nat) (h : heap) (p : Port S) (st : readState)
    (b : byte) :
  startCharacterFound st = true ->
  byteIsEscaped st = true ->
  b <> etx ->
  exists st',
    readByte slack h p st b = Returned (h, p, st')
    /\ buf st' = (if maxMessageSize <? length (buf st ++ [b]) then []
                  else buf st ++ [b])
    /\ startCharacterFound st' = true
    /\ byteIsEscaped st' = false
    /\ isControlMessage st' = isControlMessage st
    /\ controlCharacter st' = controlCharacter st.
Proof.
  intros Hstart Hesc Hb. eexists. split.
  - apply readByte_escaped_in_body; [done|done|].
    destruct (Byte.eqb b etx) eqn:E; [by apply Byte.byte_dec_bl in E|done].
  - done.
Qed.

Lemma escaped_non_etx_byte_is_appended_witness :
  exists st',
    readByte doubling_slack [] loopPort
      {| buf := [x01]; controlCharacter := x00; isControlMessage := false;
         startCharacterFound := true; byteIsEscaped := true;
         timerRunning := true |} dle
    = Returned ([], loopPort, st')
    /\ buf st' = (if maxMessageSize <? length ([x01] ++ [dle]) then []
                  else [x01] ++ [dle])
    /\ startCharacterFound st' = true
    /\ byteIsEscaped st' = false
    /\ isControlMessage st' = false
    /\ controlCharacter st' = x00.
Proof.
  apply (escaped_non_etx_byte_is_appended doubling_slack [] loopPort
           {| buf := [x01]; controlCharacter := x00; isControlMessage := false;
              startCharacterFound := true; byteIsEscaped := true;
              timerRunning := true |} dle);
    [reflexivity | reflexivity | intros E; discriminate E].
Defined.

(** ** Slices *)

Section AppendFacts.
Variable slack : nat -> nat -> nat.

Lemma length_slice_view (h : heap) (s : slice) :
  wf_slice h s -> length (slice_view h s) = s_len s.
Proof.
  unfold wf_slice, slice_view. intros [Hlen Harr].
  destruct (s_arr s) as [a|].
  - destruct Harr as (arr & -> & Hcap). simpl.
    rewrite length_take_le; lia.
  - simpl. lia.
Qed.

Lemma slice_view_empty (h : heap) (s : slice) :
  s_len s = 0 -> slice_view h s = [].
Proof.
  unfold slice_view. intros ->. destruct (s_arr s); [apply take_0|done].
Qed.

Lemma length_write_at (off : nat) (xs arr : list byte) :
  off + length xs <= length arr ->
  length (write_at off xs arr) = length arr.
Proof.
  intros Hfit. unfold write_at.
  rewrite !length_app, length_take_le, length_drop; lia.
Qed.

Lemma take_write_at (off : nat) (xs arr : list byte) :
  off <= length arr ->
  take (off + length xs) (write_at off xs arr) = take off arr ++ xs.
Proof.
  intros Hoff. unfold write_at. rewrite app_assoc.
  apply take_app_length'. rewrite length_app, length_take_le; lia.
Qed.

(** [append] returns a slice that denotes the old contents followed by the
    appended bytes, and keeps the invariant of both the new header and the
    old one cut to length 0. *)
Lemma go_append_spec (h : heap) (s : slice) (xs : list byte) :
  wf_slice h s ->
  slice_view (go_append slack h s xs).1 (go_append slack h s xs).2
    = slice_view h s ++ xs
  /\ wf_slice (go_append slack h s xs).1 (go_append slack h s xs).2
  /\ wf_slice (go_append slack h s xs).1 (reslice0 s).
Proof.
  intros Hwf. pose proof (length_slice_view h s Hwf) as Hview.
  destruct Hwf as [Hlen Harr]. unfold go_append.
  destruct (s_len s + length xs <=? s_cap s) eqn:Hfit.
  - apply Nat.leb_le in Hfit. destruct (s_arr s) as [a|] eqn:Ha.
    + destruct Harr as (arr & Hlook & Hcap).
      assert (Ha' : a < length h) by (by eapply lookup_lt_Some).
      rewrite Hlook. simpl. repeat split.
      * unfold slice_view. simpl. rewrite Ha, Hlook.
        rewrite list_lookup_insert_eq by done. simpl.
        apply take_write_at. lia.
      * simpl. lia.
      * simpl. eexists. split; [by apply list_lookup_insert_eq|].
        rewrite length_write_at; lia.
      * simpl. lia.
      * simpl. rewrite Ha. eexists. split; [by apply list_lookup_insert_eq|].
        rewrite length_write_at; lia.
    + simpl. assert (Hxs : xs = []) by (apply nil_length_inv; lia).
      subst xs. rewrite app_nil_r. repeat split; simpl; try lia.
      * by rewrite Ha.
      * by rewrite Ha.
  - apply Nat.leb_gt in Hfit. simpl. repeat split.
    + unfold slice_view at 1. simpl.
      rewrite list_lookup_middle by done. simpl.
      rewrite app_assoc. apply take_app_length'.
      rewrite length_app. lia.
    + simpl. lia.
    + simpl. eexists. split; [by apply list_lookup_middle|].
      rewrite !length_app, length_replicate. lia.
    + simpl. lia.
    + simpl. destruct (s_arr s) as [a|]; [|done].
      destruct Harr as (arr & Hlook & Hcap). exists arr. split; [|done].
      by apply lookup_app_l_Some.
Qed.

(** [append] within the capacity writes into the array of [s] and returns
    a slice on that same array. *)
Lemma go_append_in_place (h : heap) (s : slice) (xs : list byte) (a : nat) :
  s_arr s = Some a ->
  s_len s + length xs <= s_cap s ->
  go_append slack h s xs
  = (<[a := write_at (s_len s) xs (default [] (h !! a))]> h,
     {| s_arr := Some a; s_len := s_len s + length xs; s_cap := s_cap s |}).
Proof.
  intros Ha Hfit. unfold go_append.
  by rewrite (proj2 (Nat.leb_le _ _) Hfit), Ha.
Qed.

(** [append] of at least one byte to a nil slice allocates an array. *)
Lemma go_append_nil (h : heap) (xs : list byte) :
  0 < length xs ->
  go_append slack h nil_slice xs
  = (h ++ [xs ++ replicate (slack 0 (length xs)) x00],
     {| s_arr := Some (length h); s_len := length xs;
        s_cap := length xs + slack 0 (length xs) |}).
Proof.
  intros Hxs. unfold go_append. cbn [s_len s_cap nil_slice Nat.add].
  rewrite (proj2 (Nat.leb_gt _ _) Hxs).
  replace (length xs + slack 0 (length xs) - length xs)
    with (slack 0 (length xs)) by lia.
  done.
Qed.

End AppendFacts.

(** ** The receiver: reassembly *)

Section Reassembly.
Context {S : Type} `{ReadWriteCloser S}.
Variable slack : nat -> nat -> nat.

Lemma valid_body_same_config (p p' : Port S) (body : list byte) :
  same_config p p' -> valid_body p' body = valid_body p body.
Proof. intros [Hv Hl]. unfold valid_body. by rewrite Hv, Hl. Qed.

Lemma body_payload_same_config (p p' : Port S) (body : list byte) :
  same_config p p' -> body_payload p' body = body_payload p body.
Proof. intros [Hv Hl]. unfold body_payload. by rewrite Hl. Qed.

(** A valid body splits into MSN, AppendFlag and payload. *)
Lemma valid_body_split (p : Port S) (body : list byte) :
  valid_body p body = true ->
  (length body <? 2 + dataMessageCRCLength p) = false
  /\ Validate (dataMessageCRCValidator p)
       (take (length body - dataMessageCRCLength p) body)
       (drop (length body - dataMessageCRCLength p) body) = Some true
  /\ exists pmsn flag,
       take (length body - dataMessageCRCLength p) body
         = pmsn :: flag :: body_payload p body
       /\ body_appendFlag body = Some flag.
Proof.
  unfold valid_body, body_payload, body_appendFlag. intros Hv.
  apply andb_prop in Hv as [Hlen Hcrc]. apply Nat.leb_le in Hlen.
  split; [apply Nat.ltb_ge; lia|].
  split; [by destruct (Validate _ _ _) as [[|]|]|].
  set (pos := length body - dataMessageCRCLength p).
  assert (Hpos : length (take pos body) = pos)
    by (apply length_take_le; unfold pos; lia).
  assert (Hflag : take pos body !! 1 = body !! 1)
    by (apply lookup_take_lt; unfold pos; lia).
  destruct (take pos body) as [|pmsn [|flag payload]];
    [simpl in Hpos; unfold pos in Hpos; lia
    |simpl in Hpos; unfold pos in Hpos; lia|].
  exists pmsn, flag. by rewrite <- Hflag.
Qed.

(** A valid frame with [AppendFlag <> 0] extends the reassembly buffer by
    its payload and publishes nothing. *)
Lemma handle_fragment (h : heap) (p : Port S) (body : list byte) :
  wf_slice h (readBinaryDataBuffer p) ->
  valid_body p body = true ->
  is_terminal body = false ->
  exists h' p',
    handleReceivedDataMessageBody slack h p body = Returned (h', p', None)
    /\ slice_view h' (readBinaryDataBuffer p')
       = slice_view h (readBinaryDataBuffer p) ++ body_payload p body
    /\ wf_slice h' (readBinaryDataBuffer p')
    /\ readDataChunkChan p' = readDataChunkChan p
    /\ same_config p p'.
Proof.
  intros Hwf Hvalid Hterm.
  destruct (valid_body_split p body Hvalid)
    as (Hlen & Hcrc & pmsn & flag & Htake & Hflag).
  unfold is_terminal in Hterm. rewrite Hflag in Hterm.
  unfold handleReceivedDataMessageBody, dataMessageBody.
  rewrite Hlen, Hcrc, Htake, Hterm.
  pose proof (go_append_spec slack h _ (body_payload p body) Hwf)
    as (Hview & Hwf' & _).
  destruct (go_append slack h (readBinaryDataBuffer p) (body_payload p body))
    as [h1 s1].
  by eexists _, _.
Qed.

(** A valid frame with [AppendFlag = 0] publishes the buffer followed by
    its payload and leaves the buffer empty. *)
Lemma handle_terminal (h : heap) (p : Port S) (body : list byte) :
  wf_slice h (readBinaryDataBuffer p) ->
  valid_body p body = true ->
  is_terminal body = true ->
  exists h' p' d,
    handleReceivedDataMessageBody slack h p body = Returned (h', p', None)
    /\ readDataChunkChan p' = readDataChunkChan p ++ [d]
    /\ slice_view h' d
       = slice_view h (readBinaryDataBuffer p) ++ body_payload p body
    /\ s_len (readBinaryDataBuffer p') = 0
    /\ wf_slice h' (readBinaryDataBuffer p')
    /\ same_config p p'.
Proof.
  intros Hwf Hvalid Hterm.
  destruct (valid_body_split p body Hvalid)
    as (Hlen & Hcrc & pmsn & flag & Htake & Hflag).
  unfold is_terminal in Hterm. rewrite Hflag in Hterm.
  unfold handleReceivedDataMessageBody, dataMessageBody.
  rewrite Hlen, Hcrc, Htake, Hterm.
  pose proof (go_append_spec slack h _ (body_payload p body) Hwf)
    as (Hview & _ & Hwf0).
  destruct (go_append slack h (readBinaryDataBuffer p) (body_payload p body))
    as [h1 s1].
  cbv beta iota zeta.
  match goal with |- context [if ?c then _ else _] => destruct c end.
  - by eexists _, _, s1.
  - by eexists _, _, s1.
Qed.

(** The same two steps as equations. *)
Lemma handle_fragment_eq (h : heap) (p : Port S) (body : list byte) :
  valid_body p body = true ->
  is_terminal body = false ->
  handleReceivedDataMessageBody slack h p body
  = Returned
      ((go_append slack h (readBinaryDataBuffer p) (body_payload p body)).1,
       set_readBinaryDataBuffer p
         (go_append slack h (readBinaryDataBuffer p) (body_payload p body)).2,
       None).
Proof.
  intros Hvalid Hterm.
  destruct (valid_body_split p body Hvalid)
    as (Hlen & Hcrc & pmsn & flag & Htake & Hflag).
  unfold is_terminal in Hterm. rewrite Hflag in Hterm.
  unfold handleReceivedDataMessageBody, dataMessageBody.
  rewrite Hlen, Hcrc, Htake, Hterm.
  by destruct (go_append slack h (readBinaryDataBuffer p) (body_payload p body)).
Qed.

Lemma handle_terminal_eq (h : heap) (p : Port S) (body : list byte) :
  valid_body p body = true ->
  is_terminal body = true ->
  s_cap (readBinaryDataBuffer p) <= releaseCapacity ->
  handleReceivedDataMessageBody slack h p body
  = Returned
      ((go_append slack h (readBinaryDataBuffer p) (body_payload p body)).1,
       set_readBinaryDataBuffer
         (set_readDataChunkChan p
            (readDataChunkChan p
               ++ [(go_append slack h (readBinaryDataBuffer p)
                      (body_payload p body)).2]))
         (reslice0 (readBinaryDataBuffer p)),
       None).
Proof.
  intros Hvalid Hterm Hcap.
  destruct (valid_body_split p body Hvalid)
    as (Hlen & Hcrc & pmsn & flag & Htake & Hflag).
  unfold is_terminal in Hterm. rewrite Hflag in Hterm.
  unfold handleReceivedDataMessageBody, dataMessageBody.
  rewrite Hlen, Hcrc, Htake, Hterm.
  destruct (go_append slack h (readBinaryDataBuffer p) (body_payload p body))
    as [h1 s1].
  cbv beta iota zeta. cbn [readBinaryDataBuffer set_readBinaryDataBuffer
    set_readDataChunkChan reslice0 s_cap fst snd].
  by rewrite (proj2 (Nat.ltb_ge _ _) Hcap).
Qed.

End Reassembly.

Section ReassemblySequences.
Context {S : Type} `{ReadWriteCloser S}.
Variable slack : nat -> nat -> nat.

Lemma same_config_refl (p : Port S) : same_config p p.
Proof. by split. Qed.

Lemma same_config_trans (p1 p2 p3 : Port S) :
  same_config p1 p2 -> same_config p2 p3 -> same_config p1 p3.
Proof. intros [? ?] [? ?]. split; congruence. Qed.

Lemma handleDataMessageBodies_app (h : heap) (p : Port S)
    (xs ys : list (list byte)) :
  handleDataMessageBodies slack h p (xs ++ ys) =
    match handleDataMessageBodies slack h p xs with
    | Returned (h', p') => handleDataMessageBodies slack h' p' ys
    | Panicked => Panicked
    end.
Proof.
  revert h p; induction xs as [|x xs IH]; intros h p; simpl; [done|].
  destruct (handleReceivedDataMessageBody slack h p x) as [[[h1 p1] e]|];
    [apply IH|done].
Qed.

(** Every valid body is handled without error and keeps the invariant. *)
Lemma handle_valid_body (h : heap) (p : Port S) (body : list byte) :
  wf_slice h (readBinaryDataBuffer p) ->
  valid_body p body = true ->
  exists h' p',
    handleReceivedDataMessageBody slack h p body = Returned (h', p', None)
    /\ wf_slice h' (readBinaryDataBuffer p')
    /\ same_config p p'
    /\ (is_terminal body = true -> s_len (readBinaryDataBuffer p') = 0).
Proof.
  intros Hwf Hvalid. destruct (is_terminal body) eqn:Hterm.
  - destruct (handle_terminal slack h p body Hwf Hvalid Hterm)
      as (h' & p' & d & Hrun & _ & _ & Hlen & Hwf' & Hcfg).
    by exists h', p'.
  - destruct (handle_fragment slack h p body Hwf Hvalid Hterm)
      as (h' & p' & Hrun & _ & Hwf' & _ & Hcfg).
    by exists h', p'.
Qed.

(** A sequence of valid bodies is handled to its end, keeps the invariant,
    and leaves the buffer empty when it ends with a terminal frame. *)
Lemma handle_valid_bodies (bodies : list (list byte)) (h : heap) (p : Port S) :
  wf_slice h (readBinaryDataBuffer p) ->
  s_len (readBinaryDataBuffer p) = 0 ->
  Forall (fun body => valid_body p body = true) bodies ->
  ends_published bodies ->
  exists h' p',
    handleDataMessageBodies slack h p bodies = Returned (h', p')
    /\ wf_slice h' (readBinaryDataBuffer p')
    /\ same_config p p'
    /\ s_len (readBinaryDataBuffer p') = 0.
Proof.
  intros Hwf Hempty Hvalid Hends.
  assert (Hrun : forall bs h0 (p0 : Port S),
             wf_slice h0 (readBinaryDataBuffer p0) ->
             Forall (fun body => valid_body p0 body = true) bs ->
             exists h' p',
               handleDataMessageBodies slack h0 p0 bs = Returned (h', p')
               /\ wf_slice h' (readBinaryDataBuffer p')
               /\ same_config p0 p').
  { induction bs as [|b bs IH]; intros h0 p0 Hwf0 Hall.
    - exists h0, p0. split; [done|]. split; [done|]. apply same_config_refl.
    - apply Forall_cons in Hall as [Hb Hbs].
      destruct (handle_valid_body h0 p0 b Hwf0 Hb)
        as (h1 & p1 & Hstep & Hwf1 & Hcfg1 & _).
      destruct (IH h1 p1 Hwf1) as (h' & p' & Hrest & Hwf' & Hcfg').
      { eapply Forall_impl; [exact Hbs|]. intros body Hbody.
        by rewrite (valid_body_same_config p0 p1). }
      exists h', p'. simpl. rewrite Hstep.
      split; [done|]. split; [done|]. by eapply same_config_trans. }
  induction bodies as [|lastb front _] using rev_ind.
  - exists h, p. split; [done|]. split; [done|].
    split; [apply same_config_refl|done].
  - unfold ends_published in Hends. rewrite last_snoc in Hends.
    apply Forall_app in Hvalid as [Hfront Hlast].
    apply Forall_cons in Hlast as [Hlast _].
    destruct (Hrun front h p Hwf Hfront) as (h1 & p1 & Hrun1 & Hwf1 & Hcfg1).
    rewrite <- (valid_body_same_config p p1) in Hlast by done.
    destruct (handle_valid_body h1 p1 lastb Hwf1 Hlast)
      as (h' & p' & Hstep & Hwf' & Hcfg' & Hlen).
    exists h', p'. rewrite handleDataMessageBodies_app, Hrun1. simpl.
    rewrite Hstep. split; [done|]. split; [done|].
    split; [by eapply same_config_trans|by apply Hlen].
Qed.

(** Valid frames with [AppendFlag <> 0] accumulate their payloads in order
    and publish nothing. *)
Lemma handle_fragments (fs : list (list byte)) (h : heap) (p : Port S) :
  wf_slice h (readBinaryDataBuffer p) ->
  Forall (fun body => valid_body p body = true) fs ->
  Forall (fun body => is_terminal body = false) fs ->
  exists h' p',
    handleDataMessageBodies slack h p fs = Returned (h', p')
    /\ slice_view h' (readBinaryDataBuffer p')
       = slice_view h (readBinaryDataBuffer p)
           ++ concat (map (body_payload p) fs)
    /\ wf_slice h' (readBinaryDataBuffer p')
    /\ readDataChunkChan p' = readDataChunkChan p
    /\ same_config p p'.
Proof.
  revert h p. induction fs as [|f fs IH]; intros h p Hwf Hvalid Hfrag.
  - exists h, p. simpl. rewrite app_nil_r.
    split; [done|]. split; [done|]. split; [done|].
    split; [done|apply same_config_refl].
  - apply Forall_cons in Hvalid as [Hf Hfs].
    apply Forall_cons in Hfrag as [Hnf Hnfs].
    destruct (handle_fragment slack h p f Hwf Hf Hnf)
      as (h1 & p1 & Hstep & Hview1 & Hwf1 & Hchan1 & Hcfg1).
    destruct (IH h1 p1 Hwf1) as (h' & p' & Hrest & Hview & Hwf' & Hchan & Hcfg).
    { eapply Forall_impl; [exact Hfs|]. intros body Hbody.
      by rewrite (valid_body_same_config p p1). }
    { done. }
    exists h', p'. simpl. rewrite Hstep. split; [done|].
    split.
    { assert (Hext : map (body_payload p1) fs = map (body_payload p) fs)
        by (apply map_ext; intros body; by apply body_payload_same_config).
      rewrite Hview, Hview1, Hext, <- app_assoc. done. }
    split; [done|]. split; [congruence|]. by eapply same_config_trans.
Qed.

End ReassemblySequences.

(** What a publication puts on the queue: for valid bodies handled in
    order from a state with nothing pending, with room in the receive
    queue for every payload they publish, when a frame with
    [AppendFlag = 0] arrives the slice sent on the queue denotes, in the
    store of that moment, the payloads of the frames received since the
    previous publication ([fs], all with a non-zero flag) in order,
    followed by the payload of the terminal frame [t]; and the reassembly
    buffer has length 0 after it. *)
Lemma payload_at_publication {S : Type} `{ReadWriteCloser S}
    (slack : nat -> nat -> nat) (h : heap) (p : Port S)
    (before fs : list (list byte)) (t : list byte) :
  wf_slice h (readBinaryDataBuffer p) ->
  s_len (readBinaryDataBuffer p) = 0 ->
  length (readDataChunkChan p)
    + length (List.filter is_terminal (before ++ fs ++ [t]))
    <= readDataChunkChanSize ->
  Forall (fun body => valid_body p body = true) (before ++ fs ++ [t]) ->
  ends_published before ->
  Forall (fun body => is_terminal body = false) fs ->
  is_terminal t = true ->
  exists h' p' d,
    handleDataMessageBodies slack h p (before ++ fs ++ [t]) = Returned (h', p')
    /\ last (readDataChunkChan p') = Some d
    /\ slice_view h' d = concat (map (body_payload p) fs) ++ body_payload p t
    /\ slice_view h' (readBinaryDataBuffer p') = [].
Proof.
  intros Hwf Hempty _ Hvalid Hends Hfrag Hterm.
  apply Forall_app in Hvalid as [Hbefore Hrest].
  apply Forall_app in Hrest as [Hfs Ht]. apply Forall_cons in Ht as [Ht _].
  destruct (handle_valid_bodies slack before h p Hwf Hempty Hbefore Hends)
    as (h1 & p1 & Hrun1 & Hwf1 & Hcfg1 & Hempty1).
  destruct (handle_fragments slack fs h1 p1 Hwf1)
    as (h2 & p2 & Hrun2 & Hview2 & Hwf2 & _ & Hcfg2); [|done|].
  { eapply Forall_impl; [exact Hfs|]. intros body Hbody.
    by rewrite (valid_body_same_config p p1). }
  pose proof (same_config_trans _ _ _ Hcfg1 Hcfg2) as Hcfg.
  rewrite <- (valid_body_same_config p p2) in Ht by done.
  destruct (handle_terminal slack h2 p2 t Hwf2 Ht Hterm)
    as (h' & p' & d & Hstep & Hchan & Hview & Hlen & _ & _).
  exists h', p', d.
  rewrite handleDataMessageBodies_app, Hrun1.
  rewrite handleDataMessageBodies_app, Hrun2. simpl. rewrite Hstep.
  split; [done|]. split; [by rewrite Hchan, last_snoc|].
  split; [|by apply slice_view_empty].
  assert (Hext : map (body_payload p1) fs = map (body_payload p) fs)
    by (apply map_ext; intros body; by apply body_payload_same_config).
  rewrite Hview, Hview2, (slice_view_empty h1 _ Hempty1), Hext. simpl.
  by rewrite (body_payload_same_config p p2).
Qed.

(** C7 (the code departs from the claim): the slice sent on the receive
    queue is [append(p.readBinaryDataBuffer, binData...)], and the buffer
    is then cut to [buffer[:0]], which keeps its array.  When that
    [append] fits the capacity, the queued payload and the buffer share
    the array, and the next frame is written over the payload while it is
    still in the queue.  On a port with a nil buffer and room for two
    payloads in the queue: after a fragment [f] with a non-empty payload
    and a terminal frame [t] whose payload fits the room the runtime left
    in the array ([slack 0 n], with an array of at most 10240 bytes), the
    queue receives a slice [d] that denotes [payload f ++ payload t]; once
    the next message [u], one frame with a payload no longer than that and
    not a prefix of it, has been handled, the same [d], still queued,
    denotes the payload of [u] followed by what is left of its own bytes:
    the payload delivered is no longer the concatenation of the frames it
    was made from. *)
Theorem queued_payload_overwritten_by_next_frame
    {S : Type} `{ReadWriteCloser S} (slack : nat -> nat -> nat) (h : heap)
    (p : Port S) (f t u : list byte) :
  readBinaryDataBuffer p = nil_slice ->
  length (readDataChunkChan p) + 2 <= readDataChunkChanSize ->
  valid_body p f = true -> is_terminal f = false ->
  valid_body p t = true -> is_terminal t = true ->
  valid_body p u = true -> is_terminal u = true ->
  0 < length (body_payload p f) ->
  length (body_payload p t) <= slack 0 (length (body_payload p f)) ->
  length (body_payload p f) + slack 0 (length (body_payload p f))
    <= releaseCapacity ->
  length (body_payload p u)
    <= length (body_payload p f) + length (body_payload p t) ->
  take (length (body_payload p u)) (body_payload p f ++ body_payload p t)
    <> body_payload p u ->
  exists h2 p2 d h3 p3 d',
    handleDataMessageBodies slack h p [f; t] = Returned (h2, p2)
    /\ readDataChunkChan p2 = readDataChunkChan p ++ [d]
    /\ slice_view h2 d = body_payload p f ++ body_payload p t
    /\ handleDataMessageBodies slack h2 p2 [u] = Returned (h3, p3)
    /\ readDataChunkChan p3 = readDataChunkChan p ++ [d; d']
    /\ slice_view h3 d' = body_payload p u
    /\ slice_view h3 d
       = body_payload p u
           ++ drop (length (body_payload p u))
                (body_payload p f ++ body_payload p t)
    /\ slice_view h3 d <> body_payload p f ++ body_payload p t.
Proof.
  intros Hnil _ Hvf Hff Hvt Htt Hvu Htu Hxs Hts Hcap Hys Hdiff.
  set (xs := body_payload p f) in *. set (ts := body_payload p t) in *.
  set (ys := body_payload p u) in *.
  set (k := slack 0 (length xs)) in *.
  set (a := length h).
  set (arr1 := xs ++ replicate k x00).
  set (s1 := {| s_arr := Some a; s_len := length xs;
                s_cap := length xs + k |}).
  set (p1 := set_readBinaryDataBuffer p s1).
  assert (Hcfg1 : same_config p p1) by (by split).
  (* the fragment allocates the array *)
  assert (E1 : handleReceivedDataMessageBody slack h p f
               = Returned (h ++ [arr1], p1, None)).
  { rewrite (handle_fragment_eq slack h p f Hvf Hff), Hnil.
    fold xs. by rewrite go_append_nil. }
  assert (Hlen1 : length arr1 = length xs + k)
    by (unfold arr1; by rewrite length_app, length_replicate).
  assert (Hlook1 : (h ++ [arr1]) !! a = Some arr1)
    by (by apply list_lookup_middle).
  (* the terminal frame is appended in place and published *)
  set (arr2 := write_at (length xs) ts arr1).
  set (h2 := <[a := arr2]> (h ++ [arr1])).
  set (d := {| s_arr := Some a; s_len := length xs + length ts;
               s_cap := length xs + k |}).
  set (p2 := set_readBinaryDataBuffer
               (set_readDataChunkChan p1 (readDataChunkChan p1 ++ [d]))
               (reslice0 s1)).
  assert (Hcfg2 : same_config p p2) by (by split).
  assert (E2 : handleReceivedDataMessageBody slack (h ++ [arr1]) p1 t
               = Returned (h2, p2, None)).
  { rewrite (handle_terminal_eq slack (h ++ [arr1]) p1 t);
      [|by rewrite (valid_body_same_config p p1)|done|exact Hcap].
    rewrite (body_payload_same_config p p1) by done. fold ts.
    change (readBinaryDataBuffer p1) with s1.
    rewrite (go_append_in_place slack (h ++ [arr1]) s1 ts a);
      [|done|simpl; lia].
    by rewrite Hlook1. }
  assert (Hlen2 : length arr2 = length xs + k)
    by (unfold arr2; rewrite length_write_at; lia).
  assert (Ha : a < length (h ++ [arr1]))
    by (rewrite length_app; simpl; unfold a; lia).
  assert (Hlook2 : h2 !! a = Some arr2)
    by (by apply list_lookup_insert_eq).
  assert (Htake2 : take (length xs + length ts) arr2 = xs ++ ts).
  { unfold arr2. rewrite take_write_at by lia.
    unfold arr1. by rewrite take_app_length. }
  (* the next message is written over the same array *)
  set (arr3 := write_at 0 ys arr2).
  set (h3 := <[a := arr3]> h2).
  set (d' := {| s_arr := Some a; s_len := length ys;
                s_cap := length xs + k |}).
  set (p3 := set_readBinaryDataBuffer
               (set_readDataChunkChan p2 (readDataChunkChan p2 ++ [d']))
               (reslice0 (reslice0 s1))).
  assert (E3 : handleReceivedDataMessageBody slack h2 p2 u
               = Returned (h3, p3, None)).
  { rewrite (handle_terminal_eq slack h2 p2 u);
      [|by rewrite (valid_body_same_config p p2)|done|exact Hcap].
    rewrite (body_payload_same_config p p2) by done. fold ys.
    change (readBinaryDataBuffer p2) with (reslice0 s1).
    rewrite (go_append_in_place slack h2 (reslice0 s1) ys a);
      [|done|simpl; lia].
    by rewrite Hlook2. }
  assert (Ha2 : a < length h2)
    by (unfold h2; by rewrite length_insert).
  assert (Hlook3 : h3 !! a = Some arr3)
    by (by apply list_lookup_insert_eq).
  assert (Harr3 : arr3 = ys ++ drop (length ys) arr2)
    by (unfold arr3, write_at; by rewrite take_0).
  exists h2, p2, d, h3, p3, d'.
  split; [by cbn [handleDataMessageBodies]; rewrite E1, E2|].
  split; [done|].
  split.
  { change (slice_view h2 d)
      with (take (length xs + length ts) (default [] (h2 !! a))).
    by rewrite Hlook2. }
  split; [by cbn [handleDataMessageBodies]; rewrite E3|].
  split; [by cbn; rewrite <- app_assoc|].
  split.
  { change (slice_view h3 d') with (take (length ys) (default [] (h3 !! a))).
    rewrite Hlook3. cbn [default from_option id]. rewrite Harr3.
    by rewrite take_app_length. }
  assert (Hview : slice_view h3 d = ys ++ drop (length ys) (xs ++ ts)).
  { change (slice_view h3 d)
      with (take (length xs + length ts) (default [] (h3 !! a))).
    rewrite Hlook3. cbn [default from_option id].
    rewrite Harr3, take_app, (take_ge ys) by lia. f_equal.
    rewrite take_drop_commute, <- Htake2. do 2 f_equal. lia. }
  split; [done|].
  intros Hsame. apply Hdiff. rewrite <- Hsame, Hview.
  by rewrite take_app_length.
Qed.

Lemma queued_payload_overwritten_by_next_frame_witness :
  exists h2 p2 d h3 p3 d',
    handleDataMessageBodies doubling_slack [] loopPort
      [body_of x01 x01 [x41; x42]; body_of x02 x00 []] = Returned (h2, p2)
    /\ readDataChunkChan p2 = readDataChunkChan loopPort ++ [d]
    /\ slice_view h2 d
       = body_payload loopPort (body_of x01 x01 [x41; x42])
           ++ body_payload loopPort (body_of x02 x00 [])
    /\ handleDataMessageBodies doubling_slack h2 p2 [body_of x03 x00 [x5a]]
       = Returned (h3, p3)
    /\ readDataChunkChan p3 = readDataChunkChan loopPort ++ [d; d']
    /\ slice_view h3 d' = body_payload loopPort (body_of x03 x00 [x5a])
    /\ slice_view h3 d
       = body_payload loopPort (body_of x03 x00 [x5a])
           ++ drop (length (body_payload loopPort (body_of x03 x00 [x5a])))
                (body_payload loopPort (body_of x01 x01 [x41; x42])
                   ++ body_payload loopPort (body_of x02 x00 []))
    /\ slice_view h3 d
       <> body_payload loopPort (body_of x01 x01 [x41; x42])
            ++ body_payload loopPort (body_of x02 x00 []).
Proof.
  apply (queued_payload_overwritten_by_next_frame doubling_slack [] loopPort
           (body_of x01 x01 [x41; x42]) (body_of x02 x00 [])
           (body_of x03 x00 [x5a])).
  - reflexivity.
  - vm_compute; lia.
  - vm_compute; reflexivity.
  - vm_compute; reflexivity.
  - vm_compute; reflexivity.
  - vm_compute; reflexivity.
  - vm_compute; reflexivity.
  - vm_compute; reflexivity.
  - vm_compute; lia.
  - vm_compute; lia.
  - vm_compute; lia.
  - vm_compute; lia.
  - vm_compute; intros E; discriminate E.
Defined.

(** That run, computed: the queue holds [41 42] after the first message,
    and [5a 42] followed by [5a] after the second. *)
Example queued_payload_overwritten_run :
  match handleDataMessageBodies doubling_slack [] loopPort
          [body_of x01 x01 [x41; x42]; body_of x02 x00 []] with
  | Returned (h2, p2) =>
      map (slice_view h2) (readDataChunkChan p2) = [[x41; x42]]
      /\ match handleDataMessageBodies doubling_slack h2 p2
                 [body_of x03 x00 [x5a]] with
         | Returned (h3, p3) =>
             map (slice_view h3) (readDataChunkChan p3)
               = [[x5a; x42]; [x5a]]
         | Panicked => False
         end
  | Panicked => False
  end.
Proof. vm_compute. repeat split. Qed.

(** With blocks of at least 8 bytes the same happens to a payload sent as
    the fragments [41] and [42]: once the message [5a] has been handled
    the queue holds [5a 42] followed by [5a]. *)
Example queued_payload_overwritten_in_block :
  match handleDataMessageBodies block8_slack [] loopPort
          [body_of x01 x01 [x41]; body_of x02 x00 [x42]] with
  | Returned (h2, p2) =>
      map (slice_view h2) (readDataChunkChan p2) = [[x41; x42]]
      /\ match handleDataMessageBodies block8_slack h2 p2
                 [body_of x03 x00 [x5a]] with
         | Returned (h3, p3) =>
             map (slice_view h3) (readDataChunkChan p3)
               = [[x5a; x42]; [x5a]]
         | Panicked => False
         end
  | Panicked => False
  end.
Proof. vm_compute. repeat split. Qed.

(** A run with two publications, computed: the second one is
    [0x42 0x43 0x44 0x45]. *)
Example reassembly_run :
  match handleDataMessageBodies doubling_slack [] loopPort
          [body_of x01 x00 [x41]; body_of x02 x01 [x42; x43];
           body_of x03 x01 [x44]; body_of x04 x00 [x45]] with
  | Returned (h, p) =>
      map (slice_view h) (readDataChunkChan p) = [[x41]; [x42; x43; x44; x45]]
      /\ slice_view h (readBinaryDataBuffer p) = []
  | Panicked => False
  end.
Proof. vm_compute. repeat split. Qed.

(** The published slice shares its backing array with the reassembly
    buffer: what a queued payload denotes is settled at the moment of its
    publication only.  Here the payload [AAAABC], still in the queue, reads
    [ZZAABC] once the next message [ZZ] has been handled. *)
Remark published_slice_shares_buffer_array :
  match handleDataMessageBodies doubling_slack [] loopPort
          [body_of x01 x01 [x41; x41; x41; x41]; body_of x02 x01 [x42];
           body_of x03 x00 [x43]] with
  | Returned (h3, p3) =>
      map (slice_view h3) (readDataChunkChan p3)
        = [[x41; x41; x41; x41; x42; x43]]
      /\ match handleDataMessageBodies doubling_slack h3 p3
                 [body_of x04 x00 [x5a; x5a]] with
         | Returned (h4, p4) =>
             map (slice_view h4) (readDataChunkChan p4)
               = [[x5a; x5a; x41; x41; x42; x43]; [x5a; x5a]]
         | Panicked => False
         end
  | Panicked => False
  end.
Proof. vm_compute. repeat split. Qed.

(** ** The port: Read, Write and Close *)

Section PortFacts.
Context {S : Type} `{ReadWriteCloser S}.

Lemma Port_Close_isClosed (p : Port S) : isClosed (Port_Close p).1 = true.
Proof.
  unfold Port_Close. destruct (isClosed p) eqn:Hc; [done|].
  by destruct (rwc_Close _) as [s [e|]].
Qed.

Lemma Port_Close_readDataChunkChan (p : Port S) :
  readDataChunkChan (Port_Close p).1 = readDataChunkChan p.
Proof.
  unfold Port_Close. destruct (isClosed p); [done|].
  by destruct (rwc_Close _) as [s [e|]].
Qed.

(** On a closed port [Write] returns [ErrClosed] and queues nothing. *)
Lemma Port_Write_closed (p : Port S) (data : list byte) :
  isClosed p = true -> Port_Write p data = (p, Some ErrClosed).
Proof. intros Hc. unfold Port_Write. by rewrite Hc. Qed.

(** On a closed port with an empty receive queue [Read] returns
    [ErrClosed], or [ErrTimeout] when a timer was created and has fired. *)
Lemma Port_Read_closed_empty (p : Port S) (timeout : list Z)
    (r : Port S * (slice * option error)) :
  readDataChunkChan p = [] ->
  Port_Read p timeout r ->
  r = (p, (nil_slice, Some ErrClosed))
  \/ (timer_created timeout = true /\ r = (p, (nil_slice, Some ErrTimeout))).
Proof.
  intros Hempty (fired & c & Hcase). destruct c; simpl in Hcase.
  - destruct (isClosed p); [|done]. left. by inversion Hcase.
  - destruct (timer_created timeout); [|done].
    destruct fired; [|done]. right. split; [done|by inversion Hcase].
  - by rewrite Hempty in Hcase.
Qed.

(** With a payload queued, [Read] can take the data case, closed or not. *)
Lemma Port_Read_queued (p : Port S) (timeout : list Z) (d : slice)
    (rest : list slice) :
  readDataChunkChan p = d :: rest ->
  Port_Read p timeout (set_readDataChunkChan p rest, (d, None)).
Proof.
  intros Hq. exists false, case_data. simpl. by rewrite Hq.
Qed.

End PortFacts.

(** C9 (the code departs from the claim): a port receives the payload
    [0x41] and is then closed; [Write] returns [ErrClosed], but [Read] can
    return the queued payload with a nil error. *)
Theorem read_after_close_can_return_queued_payload :
  exists h p d,
    handleReceivedDataMessageBody doubling_slack [] loopPort
      (body_of x07 x00 [x41]) = Returned (h, p, None)
    /\ slice_view h d = [x41]
    /\ isClosed (Port_Close p).1 = true
    /\ Port_Read (Port_Close p).1 []
         (set_readDataChunkChan (Port_Close p).1 [], (d, None))
    /\ Port_Write (Port_Close p).1 [x42] = ((Port_Close p).1, Some ErrClosed).
Proof.
  destruct (handle_terminal doubling_slack [] loopPort (body_of x07 x00 [x41]))
    as (h & p & d & Hrun & Hchan & Hview & _).
  - split; [simpl; lia|reflexivity].
  - vm_compute; reflexivity.
  - vm_compute; reflexivity.
  - exists h, p, d. split; [done|]. split.
    { rewrite Hview. vm_compute. reflexivity. }
    split; [apply Port_Close_isClosed|]. split.
    + apply Port_Read_queued. by rewrite Port_Close_readDataChunkChan, Hchan.
    + apply Port_Write_closed, Port_Close_isClosed.
Qed.

(** * Further properties *)

(** ** Escape codec *)

Section EscapeCodecMore.

Lemma unescape_loop_acc (data out : list byte) (isEscaped : bool) :
  foldl unescape_step (out, isEscaped) data
  = (out ++ (foldl unescape_step ([], isEscaped) data).1,
     (foldl unescape_step ([], isEscaped) data).2).
Proof.
  revert out isEscaped.
  induction data as [|b data IH]; intros out isEscaped; simpl.
  - by rewrite app_nil_r.
  - destruct (negb isEscaped && Byte.eqb b dle).
    + apply IH.
    + rewrite (IH (out ++ [b])), (IH ([] ++ [b])). simpl.
      by rewrite <- app_assoc.
Qed.

Lemma length_unescape_loop (data out : list byte) (isEscaped : bool) :
  length (foldl unescape_step (out, isEscaped) data).1
    <= length out + length data.
Proof.
  revert out isEscaped.
  induction data as [|b data IH]; intros out isEscaped; simpl; [lia|].
  destruct (negb isEscaped && Byte.eqb b dle).
  - specialize (IH out true). lia.
  - specialize (IH (out ++ [b]) false). rewrite length_app in IH.
    simpl in IH. lia.
Qed.

Lemma unescape_loop_no_dle (data out : list byte) (isEscaped : bool) :
  Forall (fun b => b <> dle) data ->
  foldl unescape_step (out, isEscaped) data = (out ++ data, false)
  \/ data = [].
Proof.
  revert out isEscaped.
  induction data as [|b data IH]; intros out isEscaped Hno; [by right|].
  left. apply Forall_cons in Hno as [Hb Hno]. simpl.
  destruct (Byte.eqb b dle) eqn:E; [by apply Byte.byte_dec_bl in E|].
  rewrite andb_false_r.
  destruct (IH (out ++ [b]) false Hno) as [->| ->].
  - by rewrite <- app_assoc.
  - done.
Qed.

End EscapeCodecMore.

(** X1: the escaped sequence has one more byte per DLE of the input, so
    its length lies between the length of the input and twice that. *)
Theorem length_escapeDLE_exact (data : list byte) :
  length (escapeDLE data)
    = length data + count_occ Byte.byte_eq_dec data dle
  /\ length (escapeDLE data) <= 2 * length data.
Proof.
  induction data as [|b data [IH1 IH2]]; [done|].
  rewrite escapeDLE_cons, length_app. unfold escape_byte. simpl count_occ.
  destruct (Byte.byte_eq_dec b dle) as [->|Hne].
  - simpl. lia.
  - destruct (Byte.eqb b dle) eqn:E; [by apply Byte.byte_dec_bl in E|].
    simpl. lia.
Qed.

(** X2: an escaped sequence followed by any bytes unescapes to the
    original sequence followed by the unescaping of those bytes: escaped
    data ends with the escape bit clear. *)
Theorem unescapeDLE_escapeDLE_app (x ys : list byte) :
  unescapeDLE (escapeDLE x ++ ys) = x ++ unescapeDLE ys.
Proof.
  unfold unescapeDLE.
  by rewrite foldl_app, unescape_loop_escape, unescape_loop_acc.
Qed.

(** X3: on a sequence without DLE both [escapeDLE] and [unescapeDLE] are
    the identity. *)
Theorem escape_unescape_without_dle (data : list byte) :
  Forall (fun b => b <> dle) data ->
  escapeDLE data = data /\ unescapeDLE data = data.
Proof.
  intros Hno. split.
  - induction Hno as [|b data Hb _ IH]; [done|].
    rewrite escapeDLE_cons, IH. unfold escape_byte.
    destruct (Byte.eqb b dle) eqn:E; [by apply Byte.byte_dec_bl in E|done].
  - unfold unescapeDLE.
    by destruct (unescape_loop_no_dle data [] false Hno) as [->| ->].
Qed.

Lemma escape_unescape_without_dle_witness :
  escapeDLE [x01; x00; x41] = [x01; x00; x41]
  /\ unescapeDLE [x01; x00; x41] = [x01; x00; x41].
Proof.
  apply (escape_unescape_without_dle [x01; x00; x41]).
  repeat constructor; intros E; discriminate E.
Defined.

(** X4: unescaping never lengthens a sequence. *)
Theorem length_unescapeDLE (data : list byte) :
  length (unescapeDLE data) <= length data.
Proof.
  unfold unescapeDLE. pose proof (length_unescape_loop data [] false) as Hl.
  simpl in Hl. lia.
Qed.

(** ** Checksums *)

Section Bits.
Local Open Scope N_scope.

Lemma N_bits_high_lt (a w : N) :
  (forall m, w <= m -> N.testbit a m = false) -> a < 2 ^ w.
Proof.
  intros Hhigh. assert (Hmod : a mod 2 ^ w = a).
  { apply N.bits_inj. intros m. destruct (N.lt_ge_cases m w) as [Hm|Hm].
    - by apply N.mod_pow2_bits_low.
    - rewrite N.mod_pow2_bits_high by done. symmetry. by apply Hhigh. }
  rewrite <- Hmod. apply N.mod_lt. by apply N.pow_nonzero.
Qed.

Lemma N_lt_bits_high (a w m : N) :
  a < 2 ^ w -> w <= m -> N.testbit a m = false.
Proof.
  intros Ha Hm. rewrite <- (N.mod_small a (2 ^ w)) by done.
  by apply N.mod_pow2_bits_high.
Qed.

Lemma N_lxor_lt (a b w : N) : a < 2 ^ w -> b < 2 ^ w -> N.lxor a b < 2 ^ w.
Proof.
  intros Ha Hb. apply N_bits_high_lt. intros m Hm.
  by rewrite N.lxor_spec, (N_lt_bits_high a w), (N_lt_bits_high b w).
Qed.

Lemma N_shiftr_lt (a k w : N) : a < 2 ^ w -> N.shiftr a k < 2 ^ w.
Proof.
  intros Ha. apply N_bits_high_lt. intros m Hm.
  rewrite N.shiftr_spec'. apply (N_lt_bits_high a w); [done|lia].
Qed.

Lemma N_land_lt (a b w : N) : b < 2 ^ w -> N.land a b < 2 ^ w.
Proof.
  intros Hb. apply N_bits_high_lt. intros m Hm.
  rewrite N.land_spec, (N_lt_bits_high b w) by done. apply andb_false_r.
Qed.

Lemma N_ones_lt (w : N) : N.ones w < 2 ^ w.
Proof. apply N_bits_high_lt. intros m Hm. by apply N.ones_spec_high. Qed.

Lemma N_lt_pow2_mono (a v w : N) : a < 2 ^ v -> v <= w -> a < 2 ^ w.
Proof.
  intros Ha Hvw. eapply N.lt_le_trans; [exact Ha|].
  by apply N.pow_le_mono_r.
Qed.

Lemma to_N_lt (b : byte) : Byte.to_N b < 2 ^ 8.
Proof. pose proof (Byte.to_N_bounded b). change (2 ^ 8) with 256. lia. Qed.

Lemma to_N_byte_of_N (v : N) : Byte.to_N (byte_of_N v) = N.land v (N.ones 8).
Proof.
  unfold byte_of_N. change 255 with (N.ones 8).
  destruct (Byte.of_N (N.land v (N.ones 8))) as [b|] eqn:E.
  - by apply Byte.to_of_N.
  - apply Byte.of_N_None_iff in E.
    pose proof (N_land_lt v (N.ones 8) 8 (N_ones_lt 8)) as Hlt.
    change (2 ^ 8) with 256 in Hlt. lia.
Qed.

Lemma byte_of_N_eq (v : N) (b : byte) :
  N.land v (N.ones 8) = Byte.to_N b -> byte_of_N v = b.
Proof.
  intros Hv. unfold byte_of_N. change 255 with (N.ones 8).
  by rewrite Hv, Byte.of_to_N.
Qed.

(** The bit [m] of the byte at position [k] of a little-endian word. *)
Lemma testbit_byte_at (b : byte) (k m : N) :
  N.testbit (N.shiftl (Byte.to_N b) k) m
  = if (k <=? m) && (m <? k + 8) then N.testbit (Byte.to_N b) (m - k)
    else false.
Proof.
  destruct (N.leb_spec k m) as [Hk|Hk]; simpl.
  - rewrite N.shiftl_spec_high' by done.
    destruct (N.ltb_spec m (k + 8)) as [Hm|Hm]; [done|].
    apply (N_lt_bits_high _ 8); [apply to_N_lt|lia].
  - by apply N.shiftl_spec_low.
Qed.

Lemma testbit_low_byte (v m : N) :
  N.testbit (N.land v (N.ones 8)) m
  = if m <? 8 then N.testbit v m else false.
Proof.
  rewrite N.land_spec. destruct (N.ltb_spec m 8) as [Hm|Hm].
  - rewrite N.ones_spec_low by done. apply andb_true_r.
  - rewrite N.ones_spec_high by done. apply andb_false_r.
Qed.

End Bits.

Section LittleEndianFacts.
Local Open Scope N_scope.

(** Splits the goal on every comparison of bit positions in it. *)
Ltac bit_cases :=
  repeat match goal with
  | |- context [N.ltb ?a ?b] => destruct (N.ltb_spec a b)
  | |- context [N.leb ?a ?b] => destruct (N.leb_spec a b)
  end;
  simpl; rewrite ?orb_false_r, ?orb_false_l; try lia.

Lemma testbit_byte_high (b : byte) (m : N) :
  8 <= m -> N.testbit (Byte.to_N b) m = false.
Proof. intros Hm. apply (N_lt_bits_high _ 8); [apply to_N_lt|done]. Qed.

Lemma getUint16_putUint16 (v : N) :
  v < 2 ^ 16 -> getUint16 (putUint16 v) = Some v.
Proof.
  intros Hv. unfold getUint16, putUint16. f_equal. apply N.bits_inj. intros m.
  rewrite N.lor_spec, testbit_byte_at, !to_N_byte_of_N, !testbit_low_byte,
    N.shiftr_spec'.
  bit_cases; try (f_equal; lia).
  symmetry. apply (N_lt_bits_high v 16); [done|lia].
Qed.

Lemma putUint16_getUint16 (b0 b1 : byte) :
  putUint16 (N.lor (Byte.to_N b0) (N.shiftl (Byte.to_N b1) 8)) = [b0; b1].
Proof.
  unfold putUint16. f_equal; [|f_equal]; apply byte_of_N_eq;
    apply N.bits_inj; intros m;
    rewrite testbit_low_byte, ?N.shiftr_spec', N.lor_spec, testbit_byte_at;
    bit_cases;
    rewrite ?(testbit_byte_high b0) by lia; simpl;
    try (f_equal; lia); try (symmetry; by apply testbit_byte_high).
Qed.

Lemma getUint32_putUint32 (v : N) :
  v < 2 ^ 32 -> getUint32 (putUint32 v) = Some v.
Proof.
  intros Hv. unfold getUint32, putUint32. f_equal. apply N.bits_inj. intros m.
  rewrite !N.lor_spec, !testbit_byte_at, !to_N_byte_of_N, !testbit_low_byte,
    !N.shiftr_spec'.
  bit_cases; try (f_equal; lia).
  symmetry. apply (N_lt_bits_high v 32); [done|lia].
Qed.

Lemma putUint32_getUint32 (b0 b1 b2 b3 : byte) :
  putUint32 (N.lor (N.lor (N.lor (Byte.to_N b0) (N.shiftl (Byte.to_N b1) 8))
                          (N.shiftl (Byte.to_N b2) 16))
                   (N.shiftl (Byte.to_N b3) 24))
  = [b0; b1; b2; b3].
Proof.
  unfold putUint32. repeat f_equal; apply byte_of_N_eq;
    apply N.bits_inj; intros m;
    rewrite testbit_low_byte, ?N.shiftr_spec', !N.lor_spec, !testbit_byte_at;
    bit_cases;
    rewrite ?(testbit_byte_high b0) by lia; simpl;
    try (f_equal; lia); try (symmetry; by apply testbit_byte_high).
Qed.

Lemma crc_table_entry_lt (w poly i : N) :
  poly < 2 ^ w -> i < 2 ^ w -> crc_table_entry poly i < 2 ^ w.
Proof.
  intros Hpoly Hi. unfold crc_table_entry.
  generalize 8%nat. intros n. induction n as [|n IH]; simpl; [done|].
  destruct (N.odd _); [apply N_lxor_lt; [|done]|]; by apply N_shiftr_lt.
Qed.

Lemma crc_update_step_lt (w poly crc : N) (v : byte) :
  8 <= w -> poly < 2 ^ w -> crc < 2 ^ w ->
  crc_update_step poly crc v < 2 ^ w.
Proof.
  intros Hw Hpoly Hcrc. unfold crc_update_step.
  apply N_lxor_lt; [|by apply N_shiftr_lt].
  apply crc_table_entry_lt; [done|].
  apply (N_lt_pow2_mono _ 8); [|done].
  apply N_lxor_lt; [|apply to_N_lt].
  change 255 with (N.ones 8). apply N_land_lt, N_ones_lt.
Qed.

Lemma crc_Checksum_lt (w poly : N) (data : list byte) :
  8 <= w -> poly < 2 ^ w -> crc_Checksum w poly data < 2 ^ w.
Proof.
  intros Hw Hpoly. unfold crc_Checksum. cbv zeta.
  apply N_lxor_lt; [apply N_ones_lt|].
  assert (Hinit : N.ones w < 2 ^ w) by apply N_ones_lt.
  revert Hinit. generalize (N.ones w). intros crc.
  revert crc. induction data as [|v data IH]; intros crc Hcrc; simpl; [done|].
  apply IH. by apply crc_update_step_lt.
Qed.

End LittleEndianFacts.

Section ValidatorFacts.

Lemma crc16_Checksum_lt (data : list byte) :
  (crc_Checksum 16 crc16Polynomial data < 2 ^ 16)%N.
Proof. apply crc_Checksum_lt; by vm_compute. Qed.

Lemma crc32_Checksum_lt (data : list byte) :
  (crc_Checksum 32 crc32Polynomial data < 2 ^ 32)%N.
Proof. apply crc_Checksum_lt; by vm_compute. Qed.

Lemma crc16_Validate_Checksum (data : list byte) :
  Validate crc16Validator data (Checksum crc16Validator data) = Some true.
Proof.
  cbn [Validate Checksum crc16Validator].
  rewrite getUint16_putUint16 by apply crc16_Checksum_lt.
  by rewrite N.eqb_refl.
Qed.

Lemma crc32_Validate_Checksum (data : list byte) :
  Validate crc32Validator data (Checksum crc32Validator data) = Some true.
Proof.
  cbn [Validate Checksum crc32Validator].
  rewrite getUint32_putUint32 by apply crc32_Checksum_lt.
  by rewrite N.eqb_refl.
Qed.

Lemma crc16_Validate_true (data rawCRC : list byte) :
  Validate crc16Validator data rawCRC = Some true
  <-> take 2 rawCRC = Checksum crc16Validator data.
Proof.
  cbn [Validate Checksum crc16Validator].
  destruct rawCRC as [|b0 [|b1 rest]]; [done|done|]. simpl take.
  unfold getUint16. split.
  - intros Hv. injection Hv as Hv. apply N.eqb_eq in Hv.
    by rewrite Hv, putUint16_getUint16.
  - intros Hraw.
    pose proof (getUint16_putUint16 _ (crc16_Checksum_lt data)) as Hget.
    rewrite <- Hraw in Hget. unfold getUint16 in Hget.
    injection Hget as ->. by rewrite N.eqb_refl.
Qed.

Lemma crc32_Validate_true (data rawCRC : list byte) :
  Validate crc32Validator data rawCRC = Some true
  <-> take 4 rawCRC = Checksum crc32Validator data.
Proof.
  cbn [Validate Checksum crc32Validator].
  destruct rawCRC as [|b0 [|b1 [|b2 [|b3 rest]]]]; [done|done|done|done|].
  simpl take. unfold getUint32. split.
  - intros Hv. injection Hv as Hv. apply N.eqb_eq in Hv.
    by rewrite Hv, putUint32_getUint32.
  - intros Hraw.
    pose proof (getUint32_putUint32 _ (crc32_Checksum_lt data)) as Hget.
    rewrite <- Hraw in Hget. unfold getUint32 in Hget.
    injection Hget as ->. by rewrite N.eqb_refl.
Qed.

Lemma crc16_Validate_None (data rawCRC : list byte) :
  Validate crc16Validator data rawCRC = None <-> length rawCRC < 2.
Proof.
  cbn [Validate crc16Validator].
  destruct rawCRC as [|b0 [|b1 rest]]; simpl; split; intros; try done; lia.
Qed.

Lemma crc32_Validate_None (data rawCRC : list byte) :
  Validate crc32Validator data rawCRC = None <-> length rawCRC < 4.
Proof.
  cbn [Validate crc32Validator].
  destruct rawCRC as [|b0 [|b1 [|b2 [|b3 rest]]]]; simpl; split; intros;
    try done; lia.
Qed.

End ValidatorFacts.

(** X5: both validators accept the checksum they compute, which has 2
    bytes for CRC-16 and 4 bytes for CRC-32. *)
Theorem Validate_accepts_Checksum (data : list byte) :
  Validate crc16Validator data (Checksum crc16Validator data) = Some true
  /\ length (Checksum crc16Validator data) = 2
  /\ Validate crc32Validator data (Checksum crc32Validator data) = Some true
  /\ length (Checksum crc32Validator data) = 4.
Proof.
  split; [apply crc16_Validate_Checksum|]. split; [done|].
  split; [apply crc32_Validate_Checksum|done].
Qed.

(** X6: [Validate] returns true exactly when the first 2 (CRC-16) or 4
    (CRC-32) bytes of [rawCRC] are the checksum of the data; further bytes
    of [rawCRC] are ignored. *)
Theorem Validate_true_iff_Checksum (data rawCRC : list byte) :
  (Validate crc16Validator data rawCRC = Some true
   <-> take 2 rawCRC = Checksum crc16Validator data)
  /\ (Validate crc32Validator data rawCRC = Some true
      <-> take 4 rawCRC = Checksum crc32Validator data).
Proof. split; [apply crc16_Validate_true|apply crc32_Validate_true]. Qed.

(** X7: [Validate] panics exactly when [rawCRC] is shorter than the
    checksum: fewer than 2 bytes for CRC-16, fewer than 4 for CRC-32. *)
Theorem Validate_panics_iff_short (data rawCRC : list byte) :
  (Validate crc16Validator data rawCRC = None <-> length rawCRC < 2)
  /\ (Validate crc32Validator data rawCRC = None <-> length rawCRC < 4).
Proof. split; [apply crc16_Validate_None|apply crc32_Validate_None]. Qed.

(** ** Configuration and totality of the receiver *)

Section Configured.
Context {S : Type} `{ReadWriteCloser S}.
Variable slack : nat -> nat -> nat.

Lemma NewPort_configured (src : S) (config : list Config) :
  configured (NewPort src config).
Proof.
  unfold configured, NewPort. cbn [crc16Validator_ dataMessageCRCValidator
    dataMessageCRCLength]. split; [done|].
  destruct (Z.eqb _ CRC32); [by right|by left].
Qed.

Lemma handleReceivedDataMessageBody_crc16 (h h' : heap) (p p' : Port S)
    (body : list byte) (err : option error) :
  handleReceivedDataMessageBody slack h p body = Returned (h', p', err) ->
  crc16Validator_ p' = crc16Validator_ p.
Proof.
  unfold handleReceivedDataMessageBody, dataMessageBody, writeControlMessage.
  intros Hrun.
  destruct (length body <? 2 + dataMessageCRCLength p);
    [by inversion Hrun; subst|].
  destruct (Validate _ _ _) as [[|]|]; [| by inversion Hrun; subst | done].
  destruct (take _ body) as [|pmsn [|appendData binData]]; [done|done|].
  destruct (Byte.eqb appendData x00);
    destruct (go_append slack h (readBinaryDataBuffer p) binData) as [h1 s1];
    cbv beta iota zeta in Hrun.
  - case_if_in Hrun; by inversion Hrun; subst.
  - by inversion Hrun; subst.
Qed.

Lemma handleReceivedDataMessageBody_configured (h h' : heap) (p p' : Port S)
    (body : list byte) (err : option error) :
  configured p ->
  handleReceivedDataMessageBody slack h p body = Returned (h', p', err) ->
  configured p'.
Proof.
  intros [Hc16 Hdata] Hrun. unfold configured.
  rewrite (handleReceivedDataMessageBody_crc16 _ _ _ _ _ _ Hrun).
  destruct (handleReceivedDataMessageBody_frame slack _ _ _ _ _ _ Hrun)
    as (_ & _ & _ & _ & -> & ->).
  done.
Qed.

Lemma handleReceivedControlMessageBody_configured (p p' : Port S)
    (typeCharacter : byte) (body : list byte) (err : option error) :
  configured p ->
  handleReceivedControlMessageBody p typeCharacter body = Returned (p', err) ->
  configured p'.
Proof.
  intros Hcfg. unfold handleReceivedControlMessageBody.
  destruct (negb (length body =? 3)); [by intros [= <- _]|].
  destruct (Validate _ _ _) as [[|]|]; [|by intros [= <- _]|done].
  destruct (take _ body) as [|pmsn rest]; [done|]. by intros [= <- _].
Qed.

(** With the checksum length that belongs to the validator, the data
    handler returns for every body. *)
Lemma handleReceivedDataMessageBody_returns (h : heap) (p : Port S)
    (body : list byte) :
  configured p ->
  exists h' p' err,
    handleReceivedDataMessageBody slack h p body = Returned (h', p', err).
Proof.
  intros [_ Hdata]. unfold handleReceivedDataMessageBody, dataMessageBody.
  destruct (length body <? 2 + dataMessageCRCLength p) eqn:Hlen;
    [by eexists _, _, _|].
  apply Nat.ltb_ge in Hlen.
  set (pos := length body - dataMessageCRCLength p).
  assert (Hraw : length (drop pos body) = dataMessageCRCLength p)
    by (rewrite length_drop; unfold pos; lia).
  assert (Hpos : length (take pos body) = pos)
    by (apply length_take_le; unfold pos; lia).
  destruct (Validate (dataMessageCRCValidator p) (take pos body)
              (drop pos body)) as [[|]|] eqn:Hval.
  - destruct (take pos body) as [|pmsn [|appendData binData]];
      [simpl in Hpos; unfold pos in Hpos; lia
      |simpl in Hpos; unfold pos in Hpos; lia|].
    destruct (Byte.eqb appendData x00);
      destruct (go_append slack h (readBinaryDataBuffer p) binData)
        as [h1 s1]; by eexists _, _, _.
  - by eexists _, _, _.
  - exfalso. destruct Hdata as [[Hv Hl]|[Hv Hl]]; rewrite Hv in Hval.
    + apply crc16_Validate_None in Hval. lia.
    + apply crc32_Validate_None in Hval. lia.
Qed.

(** With the CRC-16 validator for control messages, the control handler
    returns for every body. *)
Lemma handleReceivedControlMessageBody_returns (p : Port S)
    (typeCharacter : byte) (body : list byte) :
  configured p ->
  exists p' err,
    handleReceivedControlMessageBody p typeCharacter body = Returned (p', err).
Proof.
  intros [Hc16 _]. unfold handleReceivedControlMessageBody.
  destruct (length body =? 3) eqn:Hlen; simpl; [|by eexists _, _].
  apply Nat.eqb_eq in Hlen. rewrite Hlen. simpl.
  destruct body as [|pmsn [|c0 [|c1 [|]]]]; try done. simpl.
  rewrite Hc16. cbn [Validate crc16Validator]. unfold getUint16.
  destruct (N.eqb _ _); by eexists _, _.
Qed.

End Configured.

(** X8: [setDefaults] leaves a configuration whose CRC type is CRC16 or
    CRC32, keeps a type that already is one of the two, turns every other
    value into CRC16, and applying it twice is applying it once. *)
Theorem setDefaults_normalises (c : Config) :
  (DataMessageCRC (setDefaults c) = CRC16
   \/ DataMessageCRC (setDefaults c) = CRC32)
  /\ (DataMessageCRC c = CRC16 \/ DataMessageCRC c = CRC32 ->
      setDefaults c = c)
  /\ (DataMessageCRC c <> CRC16 -> DataMessageCRC c <> CRC32 ->
      DataMessageCRC (setDefaults c) = CRC16)
  /\ setDefaults (setDefaults c) = setDefaults c.
Proof.
  unfold setDefaults.
  destruct (Z.eqb_spec (DataMessageCRC c) CRC16) as [H16|H16];
    destruct (Z.eqb_spec (DataMessageCRC c) CRC32) as [H32|H32]; simpl.
  all: split; [first [by left | by right]|].
  all: split; [first [done | by intros [?|?]]|].
  all: split; [by intros|].
  all: by rewrite ?H16, ?H32.
Qed.

Section ParserTotal.
Context {S : Type} `{ReadWriteCloser S}.
Variable slack : nat -> nat -> nat.

Lemma readByte_returns (h : heap) (p : Port S) (st : readState) (b : byte) :
  configured p ->
  exists h' p' st',
    readByte slack h p st b = Returned (h', p', st') /\ configured p'.
Proof.
  intros Hcfg. unfold readByte.
  destruct (negb (byteIsEscaped st) && Byte.eqb b dle); [by eexists _, _, _|].
  destruct (byteIsEscaped st && negb (startCharacterFound st)).
  { destruct (Byte.eqb b stx || Byte.eqb b ack || Byte.eqb b nak);
      by eexists _, _, _. }
  destruct (byteIsEscaped st && Byte.eqb b etx); [|by eexists _, _, _].
  destruct (isControlMessage st).
  - destruct (handleReceivedControlMessageBody_returns p
                (controlCharacter st) (unescapeDLE (buf st)) Hcfg)
      as (p' & err & Hrun).
    rewrite Hrun. eexists _, _, _. split; [done|].
    by eapply handleReceivedControlMessageBody_configured.
  - destruct (handleReceivedDataMessageBody_returns slack h p
                (unescapeDLE (buf st)) Hcfg) as (h' & p' & err & Hrun).
    rewrite Hrun. eexists _, _, _. split; [done|].
    by eapply handleReceivedDataMessageBody_configured.
Qed.

Lemma readByte_buf_bound (h h' : heap) (p p' : Port S) (st st' : readState)
    (b : byte) :
  readByte slack h p st b = Returned (h', p', st') ->
  length (buf st) <= maxMessageSize ->
  length (buf st') <= maxMessageSize.
Proof.
  unfold readByte. intros Hstep Hbound.
  destruct (negb (byteIsEscaped st) && Byte.eqb b dle);
    [by injection Hstep as _ _ <-|].
  destruct (byteIsEscaped st && negb (startCharacterFound st)).
  { destruct (Byte.eqb b stx || Byte.eqb b ack || Byte.eqb b nak);
      by injection Hstep as _ _ <-. }
  destruct (byteIsEscaped st && Byte.eqb b etx).
  - destruct (isControlMessage st).
    + destruct (handleReceivedControlMessageBody _ _ _) as [[p1 e]|]; [|done].
      injection Hstep as _ _ <-. simpl. lia.
    + destruct (handleReceivedDataMessageBody _ _ _ _) as [[[h1 p1] e]|];
        [|done].
      injection Hstep as _ _ <-. simpl. lia.
  - injection Hstep as _ _ <-. cbn [buf].
    destruct (maxMessageSize <? length (buf st ++ [b])) eqn:Hover.
    + simpl. lia.
    + by apply Nat.ltb_ge in Hover.
Qed.

End ParserTotal.

(** X9: on a port configured as [NewPort] does, no sequence of received
    bytes makes the parser panic, from any parser state: neither body
    handler indexes or slices out of range, whatever the bytes are; and
    when the parser has handled the bytes the port is still so configured.
    (Whether it gets that far also depends on the room in the two
    queues: a handler whose send finds its queue full waits there.) *)
Theorem readBytes_never_panics {S : Type} `{ReadWriteCloser S}
    (slack : nat -> nat -> nat) (bs : list byte) (h : heap) (p : Port S)
    (st : readState) :
  configured p ->
  readBytes slack h p st bs <> Panicked
  /\ forall h' p' st',
       readBytes slack h p st bs = Returned (h', p', st') -> configured p'.
Proof.
  revert h p st. induction bs as [|b bs IH]; intros h p st Hcfg.
  - split; [done|]. by intros h' p' st' [= _ <- _].
  - destruct (readByte_returns slack h p st b Hcfg)
      as (h1 & p1 & st1 & Hstep & Hcfg1).
    simpl. rewrite Hstep. by apply IH.
Qed.

Lemma readBytes_never_panics_witness :
  readBytes doubling_slack [] loopPort readState_init
    [x00; dle; stx; x01; dle; dle; dle; etx] <> Panicked
  /\ forall h' p' st',
       readBytes doubling_slack [] loopPort readState_init
         [x00; dle; stx; x01; dle; dle; dle; etx] = Returned (h', p', st') ->
       configured p'.
Proof.
  apply (readBytes_never_panics doubling_slack
           [x00; dle; stx; x01; dle; dle; dle; etx] [] loopPort
           readState_init).
  split; [reflexivity|]. left. split; reflexivity.
Defined.

(** X10: the parser's message buffer never holds more than
    [maxMessageSize] = 2048 bytes: the bound is kept by every sequence of
    received bytes. *)
Theorem readBytes_buf_bound {S : Type} `{ReadWriteCloser S}
    (slack : nat -> nat -> nat) (bs : list byte) (h h' : heap)
    (p p' : Port S) (st st' : readState) :
  readBytes slack h p st bs = Returned (h', p', st') ->
  length (buf st) <= maxMessageSize ->
  length (buf st') <= maxMessageSize.
Proof.
  revert h p st. induction bs as [|b bs IH]; intros h p st Hrun Hbound.
  - by injection Hrun as _ _ <-.
  - simpl in Hrun.
    destruct (readByte slack h p st b) as [[[h1 p1] st1]|] eqn:Hstep; [|done].
    eapply IH; [exact Hrun|]. by eapply readByte_buf_bound.
Qed.

Lemma readBytes_buf_bound_witness :
  length (buf (readState_after [dle; stx; x01; dle; dle; x02]))
    <= maxMessageSize.
Proof.
  assert (Hrun : exists h' p',
             readBytes doubling_slack [] loopPort readState_init
               [dle; stx; x01; dle; dle; x02]
             = Returned (h', p', readState_after [dle; stx; x01; dle; dle; x02])).
  { by eexists _, _. }
  destruct Hrun as (h' & p' & Hrun).
  apply (readBytes_buf_bound doubling_slack [dle; stx; x01; dle; dle; x02]
           [] h' loopPort p' readState_init _ Hrun).
  simpl. unfold maxMessageSize. lia.
Defined.

(** ** The port: more on Close, Write and Read *)

Lemma Port_Close_queues {S : Type} `{ReadWriteCloser S} (p : Port S) :
  writeDataChunkChan (Port_Close p).1 = writeDataChunkChan p
  /\ readControlMessageChan (Port_Close p).1 = readControlMessageChan p.
Proof.
  unfold Port_Close. destruct (isClosed p); [done|].
  by destruct (rwc_Close _) as [s [e|]].
Qed.

(** X11: [Close] marks the port closed and touches no queue; a second
    [Close] returns nil and changes nothing, so the transport is closed at
    most once. *)
Theorem Port_Close_idempotent {S : Type} `{ReadWriteCloser S} (p : Port S) :
  isClosed (Port_Close p).1 = true
  /\ readDataChunkChan (Port_Close p).1 = readDataChunkChan p
  /\ writeDataChunkChan (Port_Close p).1 = writeDataChunkChan p
  /\ readControlMessageChan (Port_Close p).1 = readControlMessageChan p
  /\ Port_Close (Port_Close p).1 = ((Port_Close p).1, None).
Proof.
  split; [apply Port_Close_isClosed|].
  split; [apply Port_Close_readDataChunkChan|].
  split; [apply Port_Close_queues|]. split; [apply Port_Close_queues|].
  - pose proof (Port_Close_isClosed p) as Hc.
    unfold Port_Close at 1. by rewrite Hc.
Qed.

(** X12: on an open port whose send queue has room for them (the queue
    holds at most [writeDataChunkChanSize] = 5 chunks, and a [Write] that
    finds it full waits), a sequence of [Write] calls appends the chunks
    to the send queue in the order of the calls; the queue stays within
    its capacity, the port stays open and [Write] itself writes nothing to
    the transport. *)
Theorem Port_Write_queues_in_order {S : Type} `{ReadWriteCloser S}
    (chunks : list (list byte)) (p : Port S) :
  isClosed p = false ->
  length (writeDataChunkChan p) + length chunks <= writeDataChunkChanSize ->
  writeDataChunkChan (foldl (fun q data => (Port_Write q data).1) p chunks)
    = writeDataChunkChan p ++ chunks
  /\ length
       (writeDataChunkChan (foldl (fun q data => (Port_Write q data).1) p chunks))
     <= writeDataChunkChanSize
  /\ isClosed (foldl (fun q data => (Port_Write q data).1) p chunks) = false
  /\ source (foldl (fun q data => (Port_Write q data).1) p chunks) = source p.
Proof.
  intros Hopen Hroom.
  assert (Hall : forall q : Port S,
             isClosed q = false ->
             writeDataChunkChan
               (foldl (fun q data => (Port_Write q data).1) q chunks)
             = writeDataChunkChan q ++ chunks
             /\ isClosed
                  (foldl (fun q data => (Port_Write q data).1) q chunks) = false
             /\ source (foldl (fun q data => (Port_Write q data).1) q chunks)
                = source q).
  { clear. induction chunks as [|c chunks IH]; intros q Hopen; simpl.
    - by rewrite app_nil_r.
    - unfold Port_Write at 2 4 6. rewrite Hopen. cbn [fst].
      destruct (IH (set_writeDataChunkChan q (writeDataChunkChan q ++ [c])))
        as (Hq & Hc & Hs); [done|].
      rewrite Hq, Hc, Hs. simpl. by rewrite <- app_assoc. }
  destruct (Hall p Hopen) as (Hq & Hc & Hs).
  split; [done|]. split; [|done].
  rewrite Hq, length_app. lia.
Qed.

Lemma Port_Write_queues_in_order_witness :
  writeDataChunkChan
    (foldl (fun q data => (Port_Write q data).1) loopPort [[x41]; []; [x42]])
  = writeDataChunkChan loopPort ++ [[x41]; []; [x42]]
  /\ length
       (writeDataChunkChan
          (foldl (fun q data => (Port_Write q data).1) loopPort
             [[x41]; []; [x42]]))
     <= writeDataChunkChanSize
  /\ isClosed
       (foldl (fun q data => (Port_Write q data).1) loopPort [[x41]; []; [x42]])
     = false
  /\ source
       (foldl (fun q data => (Port_Write q data).1) loopPort [[x41]; []; [x42]])
     = source loopPort.
Proof.
  apply (Port_Write_queues_in_order [[x41]; []; [x42]] loopPort).
  - reflexivity.
  - vm_compute; lia.
Defined.

(** X13: on an open port [Read] returns either the oldest queued payload,
    which it removes from the queue, or [ErrTimeout] when a positive
    timeout was passed; it never returns [ErrClosed], and with an empty
    queue and no timer it returns nothing (it blocks). *)
Theorem Port_Read_open {S : Type} `{ReadWriteCloser S} (p : Port S)
    (timeout : list Z) (r : Port S * (slice * option error)) :
  isClosed p = false ->
  Port_Read p timeout r
  <-> (exists d rest, readDataChunkChan p = d :: rest
                      /\ r = (set_readDataChunkChan p rest, (d, None)))
      \/ (timer_created timeout = true
          /\ r = (p, (nil_slice, Some ErrTimeout))).
Proof.
  intros Hopen. split.
  - intros (fired & c & Hcase). destruct c; simpl in Hcase.
    + by rewrite Hopen in Hcase.
    + destruct (timer_created timeout); [|done]. destruct fired; [|done].
      right. split; [done|]. by inversion Hcase.
    + destruct (readDataChunkChan p) as [|d rest]; [done|].
      left. exists d, rest. split; [done|]. by inversion Hcase.
  - intros [(d & rest & Hq & ->)|[Htimer ->]].
    + exists false, case_data. simpl. by rewrite Hq.
    + exists true, case_timeoutChan. simpl. by rewrite Htimer.
Qed.

Lemma Port_Read_open_witness :
  Port_Read loopPort [5%Z] (loopPort, (nil_slice, Some ErrTimeout))
  <-> (exists d rest, readDataChunkChan loopPort = d :: rest
        /\ (loopPort, (nil_slice, Some ErrTimeout))
           = (set_readDataChunkChan loopPort rest, (d, None)))
      \/ (timer_created [5%Z] = true
          /\ (loopPort, (nil_slice, Some ErrTimeout))
             = (loopPort, (nil_slice, Some ErrTimeout))).
Proof.
  apply (Port_Read_open loopPort [5%Z]
           (loopPort, (nil_slice, Some ErrTimeout))).
  reflexivity.
Defined.

(** X14: only the first timeout argument counts and only when it is
    positive: with a zero or negative timeout [Read] behaves as without
    one and never returns [ErrTimeout]. *)
Theorem Port_Read_nonpositive_timeout {S : Type} `{ReadWriteCloser S}
    (p : Port S) (t : Z) (more : list Z)
    (r : Port S * (slice * option error)) :
  (t <= 0)%Z ->
  (Port_Read p (t :: more) r <-> Port_Read p [] r)
  /\ (Port_Read p (t :: more) r -> r.2.2 <> Some ErrTimeout).
Proof.
  intros Ht.
  assert (Hlt : Z.ltb 0 t = false) by (apply Z.ltb_ge; lia).
  assert (Hcase : forall fired c,
             Port_Read_case p (t :: more) fired c = Port_Read_case p [] fired c).
  { intros fired c. destruct c; simpl; [done| |done]. by rewrite Hlt. }
  split.
  - split; intros (fired & c & Hc); exists fired, c.
    + by rewrite <- Hcase.
    + by rewrite Hcase.
  - intros (fired & c & Hc). destruct c; simpl in Hc.
    + destruct (isClosed p); [|done]. by inversion Hc.
    + by rewrite Hlt in Hc.
    + destruct (readDataChunkChan p); [done|]. by inversion Hc.
Qed.

Lemma Port_Read_nonpositive_timeout_witness :
  (Port_Read loopPort [0%Z; 7%Z] (loopPort, (nil_slice, Some ErrTimeout))
   <-> Port_Read loopPort [] (loopPort, (nil_slice, Some ErrTimeout)))
  /\ (Port_Read loopPort [0%Z; 7%Z] (loopPort, (nil_slice, Some ErrTimeout))
      -> (loopPort, (nil_slice, Some ErrTimeout)).2.2 <> Some ErrTimeout).
Proof.
  apply (Port_Read_nonpositive_timeout loopPort 0%Z [7%Z]
           (loopPort, (nil_slice, Some ErrTimeout))).
  lia.
Defined.

(** ** The loopback transport *)

Section LoopbackFacts.

Lemma writeToSource_loopback_open (l : Loopback.loopback) (data : list byte) :
  Loopback.isClosed l = false ->
  writeToSource l data
  = ({| Loopback.buffer := Loopback.buffer l ++ data;
        Loopback.isClosed := false |}, None).
Proof.
  intros Hopen. unfold writeToSource. simpl. unfold Loopback.Write.
  rewrite Hopen. by rewrite Nat.eqb_refl.
Qed.

Lemma writeToSource_loopback_closed (l : Loopback.loopback) (data : list byte) :
  Loopback.isClosed l = true ->
  writeToSource l data = (l, Some (Errorf "failed to write to source: %v")).
Proof.
  intros Hclosed. unfold writeToSource. simpl. unfold Loopback.Write.
  by rewrite Hclosed.
Qed.

End LoopbackFacts.

(** X15: the loopback is a lossless first-in first-out byte queue: on an
    open loopback [Write] accepts all of [p] and returns [len(p)] with a
    nil error, and a following [Read] into a slice of [lenp] bytes returns
    the first [lenp] bytes of the old buffer followed by [p] and keeps the
    rest for later reads. *)
Theorem loopback_Write_then_Read (l : Loopback.loopback) (p : list byte)
    (lenp : nat) :
  Loopback.isClosed l = false ->
  (Loopback.Write l p).2 = WriteReturn (length p) None
  /\ (Loopback.Read (Loopback.Write l p).1 lenp).2
     = (take lenp (Loopback.buffer l ++ p), None)
  /\ Loopback.buffer (Loopback.Read (Loopback.Write l p).1 lenp).1
     = drop lenp (Loopback.buffer l ++ p)
  /\ Loopback.isClosed (Loopback.Read (Loopback.Write l p).1 lenp).1 = false.
Proof.
  intros Hopen. unfold Loopback.Write. rewrite Hopen. cbn [fst snd].
  split; [done|]. unfold Loopback.Read. cbn [Loopback.isClosed Loopback.buffer].
  destruct (length (Loopback.buffer l ++ p) =? 0) eqn:Hempty.
  - apply Nat.eqb_eq in Hempty. apply nil_length_inv in Hempty.
    rewrite Hempty. cbn [fst snd Loopback.buffer Loopback.isClosed].
    by rewrite take_nil, drop_nil.
  - cbn [fst snd Loopback.buffer Loopback.isClosed].
    destruct (length (Loopback.buffer l ++ p) <? lenp) eqn:Hshort.
    + apply Nat.ltb_lt in Hshort.
      rewrite (take_ge _ lenp), (drop_ge _ lenp), take_ge, drop_ge by lia.
      done.
    + done.
Qed.

Lemma loopback_Write_then_Read_witness :
  (Loopback.Write Loopback.New [x41; x42; x43]).2 = WriteReturn 3 None
  /\ (Loopback.Read (Loopback.Write Loopback.New [x41; x42; x43]).1 2).2
     = (take 2 (Loopback.buffer Loopback.New ++ [x41; x42; x43]), None)
  /\ Loopback.buffer
       (Loopback.Read (Loopback.Write Loopback.New [x41; x42; x43]).1 2).1
     = drop 2 (Loopback.buffer Loopback.New ++ [x41; x42; x43])
  /\ Loopback.isClosed
       (Loopback.Read (Loopback.Write Loopback.New [x41; x42; x43]).1 2).1
     = false.
Proof.
  apply (loopback_Write_then_Read Loopback.New [x41; x42; x43] 2). reflexivity.
Defined.

(** X16: once the loopback is closed, [Read], [Write] and a second [Close]
    all return [ErrIsClosed] and leave the loopback as it is: nothing more
    is accepted and what was buffered is never delivered. *)
Theorem loopback_closed (l : Loopback.loopback) (p : list byte) (lenp : nat) :
  Loopback.isClosed (Loopback.Close l).1 = true
  /\ Loopback.buffer (Loopback.Close l).1 = Loopback.buffer l
  /\ Loopback.Read (Loopback.Close l).1 lenp
     = ((Loopback.Close l).1, ([], Some ErrIsClosed))
  /\ Loopback.Write (Loopback.Close l).1 p
     = ((Loopback.Close l).1, WriteReturn 0 (Some ErrIsClosed))
  /\ Loopback.Close (Loopback.Close l).1
     = ((Loopback.Close l).1, Some ErrIsClosed).
Proof.
  unfold Loopback.Read, Loopback.Write, Loopback.Close.
  destruct (Loopback.isClosed l) eqn:Hc; cbn [fst Loopback.isClosed];
    rewrite ?Hc; done.
Qed.

(** ** The sender on the loopback *)

Section SenderLoopback.

Lemma resendLoop_loopback_round (p : Port Loopback.loopback)
    (data : list byte) :
  Loopback.isClosed (source p) = false ->
  writeToSource (source p) data
  = ({| Loopback.buffer := Loopback.buffer (source p) ++ data;
        Loopback.isClosed := false |}, None).
Proof. apply writeToSource_loopback_open. Qed.

End SenderLoopback.

(** X17: on an open loopback the resend loop writes the same bytes once
    more for every control message that is not an ACK, without any cap,
    and stops at the first ACK: after [k] such messages and an ACK the
    transport has received [k + 1] copies of the frame, and the control
    messages after the ACK are left in the queue. *)
Theorem resendLoop_retransmits_until_ack (nonacks : list controlMessage)
    (p : Port Loopback.loopback) (data : list byte) (cm : controlMessage)
    (rest : list controlMessage) :
  Loopback.isClosed (source p) = false ->
  Forall (fun c => TypeCharacter c <> ack) nonacks ->
  TypeCharacter cm = ack ->
  exists p',
    resendLoop p data (nonacks ++ cm :: rest) = Acked p'
    /\ Loopback.buffer (source p')
       = Loopback.buffer (source p)
           ++ concat (replicate (S (length nonacks)) data)
    /\ readControlMessageChan p' = rest
    /\ isClosed p' = isClosed p.
Proof.
  revert p. induction nonacks as [|c nonacks IH]; intros p Hopen Hnon Hack.
  - simpl app. rewrite (resendLoop_any_ack p data _ cm rest
                          (resendLoop_loopback_round p data Hopen) Hack).
    eexists. split; [done|]. simpl. by rewrite app_nil_r.
  - apply Forall_cons in Hnon as [Hc Hnon]. simpl app.
    rewrite (resendLoop_not_ack p data _ c _
               (resendLoop_loopback_round p data Hopen) Hc).
    destruct (IH (set_readControlMessageChan
                    (set_source p
                       {| Loopback.buffer := Loopback.buffer (source p) ++ data;
                          Loopback.isClosed := false |})
                    (nonacks ++ cm :: rest)))
      as (p' & Hrun & Hbuf & Hchan & Hclosed); [done|done|done|].
    exists p'. split; [done|]. split; [|done].
    rewrite Hbuf. simpl. by rewrite <- !app_assoc.
Qed.

Lemma resendLoop_retransmits_until_ack_witness :
  exists p',
    resendLoop loopPort [x10; x02; x41; x10; x03]
      ([{| TypeCharacter := nak; MSN := x00 |};
        {| TypeCharacter := nak; MSN := x00 |}]
         ++ {| TypeCharacter := ack; MSN := x09 |}
         :: [{| TypeCharacter := nak; MSN := x01 |}]) = Acked p'
    /\ Loopback.buffer (source p')
       = Loopback.buffer (source loopPort)
           ++ concat (replicate
                        (S (length [{| TypeCharacter := nak; MSN := x00 |};
                                    {| TypeCharacter := nak; MSN := x00 |}]))
                        [x10; x02; x41; x10; x03])
    /\ readControlMessageChan p' = [{| TypeCharacter := nak; MSN := x01 |}]
    /\ isClosed p' = isClosed loopPort.
Proof.
  apply (resendLoop_retransmits_until_ack
           [{| TypeCharacter := nak; MSN := x00 |};
            {| TypeCharacter := nak; MSN := x00 |}]
           loopPort [x10; x02; x41; x10; x03]
           {| TypeCharacter := ack; MSN := x09 |}
           [{| TypeCharacter := nak; MSN := x01 |}]).
  - reflexivity.
  - repeat constructor; intros E; discriminate E.
  - reflexivity.
Defined.

(** X18: when no ACK ever arrives the resend loop never gives up and never
    reports an error: after [k] control messages, none of them an ACK, it
    has written [k + 1] copies of the frame and waits for the next control
    message. *)
Theorem resendLoop_waits_without_ack (cms : list controlMessage)
    (p : Port Loopback.loopback) (data : list byte) :
  Loopback.isClosed (source p) = false ->
  Forall (fun c => TypeCharacter c <> ack) cms ->
  exists p',
    resendLoop p data cms = Waiting p'
    /\ Loopback.buffer (source p')
       = Loopback.buffer (source p) ++ concat (replicate (S (length cms)) data)
    /\ isClosed p' = isClosed p.
Proof.
  revert p. induction cms as [|c cms IH]; intros p Hopen Hnon.
  - rewrite (resendLoop_no_reply p data _
               (resendLoop_loopback_round p data Hopen)).
    eexists. split; [done|]. simpl. by rewrite app_nil_r.
  - apply Forall_cons in Hnon as [Hc Hnon].
    rewrite (resendLoop_not_ack p data _ c _
               (resendLoop_loopback_round p data Hopen) Hc).
    destruct (IH (set_readControlMessageChan
                    (set_source p
                       {| Loopback.buffer := Loopback.buffer (source p) ++ data;
                          Loopback.isClosed := false |}) cms))
      as (p' & Hrun & Hbuf & Hclosed); [done|done|].
    exists p'. split; [done|]. split; [|done].
    rewrite Hbuf. simpl. by rewrite <- !app_assoc.
Qed.

Lemma resendLoop_waits_without_ack_witness :
  exists p',
    resendLoop loopPort [x10; x02; x41; x10; x03]
      [{| TypeCharacter := nak; MSN := x00 |}] = Waiting p'
    /\ Loopback.buffer (source p')
       = Loopback.buffer (source loopPort)
           ++ concat (replicate
                        (S (length [{| TypeCharacter := nak; MSN := x00 |}]))
                        [x10; x02; x41; x10; x03])
    /\ isClosed p' = isClosed loopPort.
Proof.
  apply (resendLoop_waits_without_ack [{| TypeCharacter := nak; MSN := x00 |}]
           loopPort [x10; x02; x41; x10; x03]).
  - reflexivity.
  - repeat constructor; intros E; discriminate E.
Defined.

(** X19: when the write to the transport fails, whatever the transport,
    the resend loop closes the port and ends without receiving any control
    message: the queue of control messages is as before. *)
Theorem resendLoop_write_error_closes_port {S : Type} `{ReadWriteCloser S}
    (p : Port S) (data : list byte) (cms : list controlMessage) (s : S)
    (e : error) :
  writeToSource (source p) data = (s, Some e) ->
  exists p',
    resendLoop p data cms = Exited p'
    /\ isClosed p' = true
    /\ readControlMessageChan p' = readControlMessageChan p.
Proof.
  intros Hw. exists (closeAndLogError (set_source p s)). split.
  - destruct cms; simpl; by rewrite Hw.
  - unfold closeAndLogError. split; [apply Port_Close_isClosed|].
    by rewrite (proj2 (Port_Close_queues _)).
Qed.

Lemma resendLoop_write_error_closes_port_witness :
  exists p',
    resendLoop (NewPort (Loopback.Close Loopback.New).1 []) [x41]
      [{| TypeCharacter := ack; MSN := x01 |}] = Exited p'
    /\ isClosed p' = true
    /\ readControlMessageChan p'
       = readControlMessageChan (NewPort (Loopback.Close Loopback.New).1 []).
Proof.
  apply (resendLoop_write_error_closes_port
           (NewPort (Loopback.Close Loopback.New).1 []) [x41]
           [{| TypeCharacter := ack; MSN := x01 |}]
           (Loopback.Close Loopback.New).1
           (Errorf "failed to write to source: %v")).
  reflexivity.
Defined.

(** A control message received before a write fails has left the queue:
    when the first write succeeds, a message other than ACK is received
    and the second write fails, the port is closed with the rest of the
    messages queued. *)
Lemma resendLoop_later_write_error {S : Type} `{ReadWriteCloser S}
    (p : Port S) (data : list byte) (cm : controlMessage)
    (rest : list controlMessage) (s s' : S) (e : error) :
  writeToSource (source p) data = (s, None) ->
  TypeCharacter cm <> ack ->
  writeToSource s data = (s', Some e) ->
  exists p',
    resendLoop p data (cm :: rest) = Exited p'
    /\ isClosed p' = true
    /\ readControlMessageChan p' = rest.
Proof.
  intros Hw Hcm Hw'.
  rewrite (resendLoop_not_ack p data s cm rest Hw Hcm).
  exists (closeAndLogError
            (set_source (set_readControlMessageChan (set_source p s) rest) s')).
  split.
  - destruct rest; cbn [resendLoop set_readControlMessageChan set_source source];
      by rewrite Hw'.
  - unfold closeAndLogError. split; [apply Port_Close_isClosed|].
    by rewrite (proj2 (Port_Close_queues _)).
Qed.

(** X20: closing an open port on the loopback closes the loopback and
    keeps its buffer; the call returns nil when the loopback was open and
    an error when the loopback had been closed before, and in both cases
    the port is closed afterwards. *)
Theorem Port_Close_on_loopback (p : Port Loopback.loopback) :
  isClosed p = false ->
  (Port_Close p).2
    = (if Loopback.isClosed (source p)
       then Some (Errorf "failed to close port's source: %v") else None)
  /\ isClosed (Port_Close p).1 = true
  /\ Loopback.isClosed (source (Port_Close p).1) = true
  /\ Loopback.buffer (source (Port_Close p).1) = Loopback.buffer (source p).
Proof.
  intros Hopen. unfold Port_Close. rewrite Hopen.
  cbn [source set_isClosed rwc_Close loopback_rwc]. unfold Loopback.Close.
  by destruct (Loopback.isClosed (source p)) eqn:Hc.
Qed.

Lemma Port_Close_on_loopback_witness :
  (Port_Close loopPort).2
    = (if Loopback.isClosed (source loopPort)
       then Some (Errorf "failed to close port's source: %v") else None)
  /\ isClosed (Port_Close loopPort).1 = true
  /\ Loopback.isClosed (source (Port_Close loopPort).1) = true
  /\ Loopback.buffer (source (Port_Close loopPort).1)
     = Loopback.buffer (source loopPort).
Proof. apply (Port_Close_on_loopback loopPort). reflexivity. Defined.

(** ** The parser on whole frames *)

Section ParserFrames.
Context {S : Type} `{ReadWriteCloser S}.
Variable slack : nat -> nat -> nat.

Lemma readBytes_app (xs ys : list byte) (h : heap) (p : Port S)
    (st : readState) :
  readBytes slack h p st (xs ++ ys) =
    match readBytes slack h p st xs with
    | Returned (h', p', st') => readBytes slack h' p' st' ys
    | Panicked => Panicked
    end.
Proof.
  revert h p st; induction xs as [|x xs IH]; intros h p st; simpl; [done|].
  destruct (readByte slack h p st x) as [[[h1 p1] st1]|]; [apply IH|done].
Qed.

Lemma readBytes_step (b : byte) (bs : list byte) (h h1 : heap)
    (p p1 : Port S) (st st1 : readState) :
  readByte slack h p st b = Returned (h1, p1, st1) ->
  readBytes slack h p st (b :: bs) = readBytes slack h1 p1 st1 bs.
Proof. intros Hstep. simpl. by rewrite Hstep. Qed.

(** An unescaped byte other than DLE is appended to the buffer, whether a
    start character was found or not. *)
Lemma readByte_plain (h : heap) (p : Port S) (st : readState) (b : byte) :
  byteIsEscaped st = false ->
  b <> dle ->
  length (buf st ++ [b]) <= maxMessageSize ->
  readByte slack h p st b =
    Returned (h, p,
      {| buf := buf st ++ [b];
         controlCharacter := controlCharacter st;
         isControlMessage := isControlMessage st;
         startCharacterFound := startCharacterFound st;
         byteIsEscaped := false;
         timerRunning := timerRunning st |}).
Proof.
  intros Hesc Hb Hlen. unfold readByte. rewrite Hesc.
  destruct (Byte.eqb b dle) eqn:E; [by apply Byte.byte_dec_bl in E|].
  cbn [negb andb].
  destruct (maxMessageSize <? length (buf st ++ [b])) eqn:Hover; [|done].
  apply Nat.ltb_lt in Hover. lia.
Qed.

(** An unescaped DLE sets the escape flag and nothing else. *)
Lemma readByte_dle (h : heap) (p : Port S) (st : readState) :
  byteIsEscaped st = false ->
  readByte slack h p st dle =
    Returned (h, p,
      {| buf := buf st;
         controlCharacter := controlCharacter st;
         isControlMessage := isControlMessage st;
         startCharacterFound := startCharacterFound st;
         byteIsEscaped := true;
         timerRunning := timerRunning st |}).
Proof. intros Hesc. unfold readByte. by rewrite Hesc. Qed.

(** Inside a message the escaped bytes of [body] reach the buffer as
    [body]: the parser removes the doubling of DLE itself. *)
Lemma readBytes_escaped_body (body : list byte) (h : heap) (p : Port S)
    (st : readState) :
  startCharacterFound st = true ->
  byteIsEscaped st = false ->
  length (buf st ++ body) <= maxMessageSize ->
  readBytes slack h p st (escapeDLE body) =
    Returned (h, p,
      {| buf := buf st ++ body;
         controlCharacter := controlCharacter st;
         isControlMessage := isControlMessage st;
         startCharacterFound := true;
         byteIsEscaped := false;
         timerRunning := timerRunning st |}).
Proof.
  revert st. induction body as [|b body IH]; intros st Hstart Hesc Hlen.
  - destruct st; simpl in *; subst. by rewrite app_nil_r.
  - rewrite length_app in Hlen. simpl in Hlen.
    rewrite escapeDLE_cons, readBytes_app. unfold escape_byte.
    destruct (Byte.eqb b dle) eqn:E.
    + apply Byte.byte_dec_bl in E. subst b.
      erewrite readBytes_step by (by apply readByte_dle).
      erewrite readBytes_step by (by apply readByte_escaped_in_body).
      cbn [readBytes buf].
      destruct (maxMessageSize <? length (buf st ++ [dle])) eqn:Hover.
      { apply Nat.ltb_lt in Hover. rewrite length_app in Hover.
        simpl in Hover. lia. }
      rewrite IH; cbn [buf startCharacterFound byteIsEscaped
        controlCharacter isControlMessage timerRunning]; [|done|done|].
      * by rewrite <- app_assoc.
      * rewrite <- app_assoc, length_app. simpl. lia.
    + assert (Hb : b <> dle) by (intros ->; discriminate E).
      erewrite readBytes_step;
        [|apply readByte_plain; [done|done|rewrite length_app; simpl; lia]].
      cbn [readBytes].
      rewrite IH; cbn [buf startCharacterFound byteIsEscaped
        controlCharacter isControlMessage timerRunning]; [|done|done|].
      * by rewrite <- app_assoc.
      * rewrite <- app_assoc, length_app. simpl. lia.
Qed.

(** An escaped start character in the idle state starts a message; the
    buffer is kept as it is. *)
Lemma readByte_start (h : heap) (p : Port S) (st : readState) (c : byte) :
  byteIsEscaped st = true ->
  startCharacterFound st = false ->
  Byte.eqb c stx || Byte.eqb c ack || Byte.eqb c nak = true ->
  readByte slack h p st c =
    Returned (h, p,
      {| buf := buf st;
         controlCharacter := if Byte.eqb c stx then controlCharacter st else c;
         isControlMessage := negb (Byte.eqb c stx);
         startCharacterFound := true;
         byteIsEscaped := false;
         timerRunning := true |}).
Proof.
  intros Hesc Hstart Hc. unfold readByte. rewrite Hesc, Hstart, Hc. done.
Qed.

(** An escaped ETX inside a message hands the unescaped buffer to the
    handler of the message's kind and empties the buffer; the flag
    [startCharacterFound] stays set. *)
Lemma readByte_etx (h : heap) (p : Port S) (st : readState) :
  byteIsEscaped st = true ->
  startCharacterFound st = true ->
  readByte slack h p st etx =
    if isControlMessage st then
      match handleReceivedControlMessageBody p (controlCharacter st)
              (unescapeDLE (buf st)) with
      | Returned (p', _) =>
          Returned (h, p',
            {| buf := []; controlCharacter := controlCharacter st;
               isControlMessage := true; startCharacterFound := true;
               byteIsEscaped := false; timerRunning := false |})
      | Panicked => Panicked
      end
    else
      match handleReceivedDataMessageBody slack h p (unescapeDLE (buf st)) with
      | Returned (h', p', _) =>
          Returned (h', p',
            {| buf := []; controlCharacter := controlCharacter st;
               isControlMessage := false; startCharacterFound := true;
               byteIsEscaped := false; timerRunning := false |})
      | Panicked => Panicked
      end.
Proof.
  intros Hesc Hstart. unfold readByte. rewrite Hesc, Hstart.
  cbn [negb andb]. change (Byte.eqb etx etx) with true. cbn iota.
  destruct (isControlMessage st); [|done].
  by destruct (handleReceivedControlMessageBody _ _ _) as [[p' e]|].
Qed.

(** A data frame received by an idle parser. *)
Lemma readBytes_data_frame (body : list byte) (h : heap) (p : Port S)
    (st : readState) :
  startCharacterFound st = false ->
  byteIsEscaped st = false ->
  length (buf st ++ body) <= maxMessageSize ->
  readBytes slack h p st ([dle; stx] ++ escapeDLE body ++ [dle; etx]) =
    match handleReceivedDataMessageBody slack h p
            (unescapeDLE (buf st ++ body)) with
    | Returned (h', p', _) =>
        Returned (h', p',
          {| buf := []; controlCharacter := controlCharacter st;
             isControlMessage := false; startCharacterFound := true;
             byteIsEscaped := false; timerRunning := false |})
    | Panicked => Panicked
    end.
Proof.
  intros Hstart Hesc Hlen. cbn [app].
  erewrite readBytes_step by (by apply readByte_dle).
  erewrite readBytes_step by (by apply readByte_start).
  rewrite readBytes_app, readBytes_escaped_body by done.
  cbn [buf controlCharacter isControlMessage timerRunning].
  change (Byte.eqb stx stx) with true. cbn [negb].
  erewrite readBytes_step by (by apply readByte_dle).
  cbn [readBytes]. rewrite readByte_etx by done.
  cbn [buf controlCharacter isControlMessage].
  by destruct (handleReceivedDataMessageBody _ _ _ _) as [[[h' p'] e]|].
Qed.

End ParserFrames.

Section ParserFramesMore.
Context {S : Type} `{ReadWriteCloser S}.
Variable slack : nat -> nat -> nat.

(** X22: a control frame [DLE c escape(body) DLE ETX] with [c] = ACK or
    NAK, received by an idle parser, hands the buffer followed by [body],
    unescaped once more, to the control handler together with [c]; the
    parser ends with an empty buffer and [startCharacterFound] still set. *)
Theorem readBytes_control_frame (c : byte) (body : list byte) (h : heap)
    (p : Port S) (st : readState) :
  c = ack \/ c = nak ->
  startCharacterFound st = false ->
  byteIsEscaped st = false ->
  length (buf st ++ body) <= maxMessageSize ->
  readBytes slack h p st ([dle; c] ++ escapeDLE body ++ [dle; etx]) =
    match handleReceivedControlMessageBody p c
            (unescapeDLE (buf st ++ body)) with
    | Returned (p', _) =>
        Returned (h, p',
          {| buf := []; controlCharacter := c;
             isControlMessage := true; startCharacterFound := true;
             byteIsEscaped := false; timerRunning := false |})
    | Panicked => Panicked
    end.
Proof.
  intros Hc Hstart Hesc Hlen. cbn [app].
  erewrite readBytes_step by (by apply readByte_dle).
  erewrite readBytes_step
    by (apply readByte_start; [done|done|by destruct Hc as [->| ->]]).
  rewrite readBytes_app, readBytes_escaped_body by done.
  cbn [buf controlCharacter isControlMessage timerRunning].
  assert (Hstx : Byte.eqb c stx = false) by (by destruct Hc as [->| ->]).
  rewrite Hstx. cbn [negb].
  erewrite readBytes_step by (by apply readByte_dle).
  cbn [readBytes]. rewrite readByte_etx by done.
  cbn [buf controlCharacter isControlMessage].
  by destruct (handleReceivedControlMessageBody _ _ _) as [[p' e]|].
Qed.

(** X23: the parser does not return to the idle state after a message:
    a data frame received while [startCharacterFound] is set (as it is
    after every completed message) has its start character STX appended to
    the buffer, so that the data handler is given the buffer followed by
    [STX] and the body. *)
Theorem readBytes_data_frame_in_message (body : list byte) (h : heap)
    (p : Port S) (st : readState) :
  startCharacterFound st = true ->
  byteIsEscaped st = false ->
  isControlMessage st = false ->
  length (buf st ++ stx :: body) <= maxMessageSize ->
  readBytes slack h p st ([dle; stx] ++ escapeDLE body ++ [dle; etx]) =
    match handleReceivedDataMessageBody slack h p
            (unescapeDLE (buf st ++ stx :: body)) with
    | Returned (h', p', _) =>
        Returned (h', p',
          {| buf := []; controlCharacter := controlCharacter st;
             isControlMessage := false; startCharacterFound := true;
             byteIsEscaped := false; timerRunning := false |})
    | Panicked => Panicked
    end.
Proof.
  intros Hstart Hesc Hkind Hlen. cbn [app].
  assert (Hlen1 : length (buf st ++ [stx]) <= maxMessageSize).
  { rewrite length_app in *. simpl in *. lia. }
  erewrite readBytes_step by (by apply readByte_dle).
  erewrite readBytes_step by (by apply readByte_escaped_in_body).
  cbn [buf].
  destruct (maxMessageSize <? length (buf st ++ [stx])) eqn:Hover;
    [apply Nat.ltb_lt in Hover; lia|].
  rewrite readBytes_app, readBytes_escaped_body;
    cbn [buf controlCharacter isControlMessage timerRunning
         startCharacterFound byteIsEscaped]; [|done|done|].
  - erewrite readBytes_step by (by apply readByte_dle).
    cbn [readBytes]. rewrite readByte_etx by done.
    cbn [buf controlCharacter isControlMessage]. rewrite Hkind.
    rewrite <- app_assoc. cbn [app].
    by destruct (handleReceivedDataMessageBody _ _ _ _) as [[[h' p'] e]|].
  - by rewrite <- app_assoc.
Qed.

(** X24: bytes other than DLE received while the escape flag is clear are
    appended to the buffer in every state, also before any start
    character: what precedes a frame is not dropped but stays in the
    buffer, up to [maxMessageSize] bytes. *)
Theorem readBytes_idle_bytes (g : list byte) (h : heap) (p : Port S)
    (st : readState) :
  byteIsEscaped st = false ->
  Forall (fun b => b <> dle) g ->
  length (buf st ++ g) <= maxMessageSize ->
  readBytes slack h p st g =
    Returned (h, p,
      {| buf := buf st ++ g;
         controlCharacter := controlCharacter st;
         isControlMessage := isControlMessage st;
         startCharacterFound := startCharacterFound st;
         byteIsEscaped := false;
         timerRunning := timerRunning st |}).
Proof.
  revert st. induction g as [|b g IH]; intros st Hesc Hno Hlen.
  - destruct st; simpl in *; subst. by rewrite app_nil_r.
  - apply Forall_cons in Hno as [Hb Hno].
    rewrite length_app in Hlen. simpl in Hlen.
    erewrite readBytes_step;
      [|apply readByte_plain; [done|done|rewrite length_app; simpl; lia]].
    rewrite IH; cbn [buf startCharacterFound byteIsEscaped
      controlCharacter isControlMessage timerRunning]; [|done|done|].
    + by rewrite <- app_assoc.
    + rewrite <- app_assoc, length_app. simpl. lia.
Qed.

End ParserFramesMore.

(** X21: a data frame [DLE STX escape(body) DLE ETX] received by an idle
    parser hands the buffer followed by [body], unescaped once more by
    [unescapeDLE], to the data handler; the parser ends with an empty
    buffer and [startCharacterFound] set. *)
Theorem readBytes_data_frame_idle {S : Type} `{ReadWriteCloser S}
    (slack : nat -> nat -> nat) (body : list byte) (h : heap) (p : Port S)
    (st : readState) :
  startCharacterFound st = false ->
  byteIsEscaped st = false ->
  length (buf st ++ body) <= maxMessageSize ->
  readBytes slack h p st ([dle; stx] ++ escapeDLE body ++ [dle; etx]) =
    match handleReceivedDataMessageBody slack h p
            (unescapeDLE (buf st ++ body)) with
    | Returned (h', p', _) =>
        Returned (h', p',
          {| buf := []; controlCharacter := controlCharacter st;
             isControlMessage := false; startCharacterFound := true;
             byteIsEscaped := false; timerRunning := false |})
    | Panicked => Panicked
    end.
Proof. apply readBytes_data_frame. Qed.

Lemma readBytes_data_frame_idle_witness :
  readBytes doubling_slack [] loopPort readState_init
    ([dle; stx] ++ escapeDLE [x07; x00; dle; x41] ++ [dle; etx]) =
    match handleReceivedDataMessageBody doubling_slack [] loopPort
            (unescapeDLE (buf readState_init ++ [x07; x00; dle; x41])) with
    | Returned (h', p', _) =>
        Returned (h', p',
          {| buf := []; controlCharacter := controlCharacter readState_init;
             isControlMessage := false; startCharacterFound := true;
             byteIsEscaped := false; timerRunning := false |})
    | Panicked => Panicked
    end.
Proof.
  apply (readBytes_data_frame_idle doubling_slack [x07; x00; dle; x41] []
           loopPort readState_init).
  - reflexivity.
  - reflexivity.
  - simpl. unfold maxMessageSize. lia.
Defined.

Lemma readBytes_control_frame_witness :
  readBytes doubling_slack [] loopPort readState_init
    ([dle; ack] ++ escapeDLE [x07; x00; x00] ++ [dle; etx]) =
    match handleReceivedControlMessageBody loopPort ack
            (unescapeDLE (buf readState_init ++ [x07; x00; x00])) with
    | Returned (p', _) =>
        Returned ([], p',
          {| buf := []; controlCharacter := ack;
             isControlMessage := true; startCharacterFound := true;
             byteIsEscaped := false; timerRunning := false |})
    | Panicked => Panicked
    end.
Proof.
  apply (readBytes_control_frame doubling_slack ack [x07; x00; x00] []
           loopPort readState_init).
  - left. reflexivity.
  - reflexivity.
  - reflexivity.
  - simpl. unfold maxMessageSize. lia.
Defined.

Lemma readBytes_data_frame_in_message_witness :
  readBytes doubling_slack [] loopPort
    {| buf := []; controlCharacter := x00; isControlMessage := false;
       startCharacterFound := true; byteIsEscaped := false;
       timerRunning := false |}
    ([dle; stx] ++ escapeDLE [x07; x00; x41] ++ [dle; etx]) =
    match handleReceivedDataMessageBody doubling_slack [] loopPort
            (unescapeDLE ([] ++ stx :: [x07; x00; x41])) with
    | Returned (h', p', _) =>
        Returned (h', p',
          {| buf := []; controlCharacter := x00;
             isControlMessage := false; startCharacterFound := true;
             byteIsEscaped := false; timerRunning := false |})
    | Panicked => Panicked
    end.
Proof.
  apply (readBytes_data_frame_in_message doubling_slack [x07; x00; x41] []
           loopPort
           {| buf := []; controlCharacter := x00; isControlMessage := false;
              startCharacterFound := true; byteIsEscaped := false;
              timerRunning := false |}).
  - reflexivity.
  - reflexivity.
  - reflexivity.
  - simpl. unfold maxMessageSize. lia.
Defined.

Lemma readBytes_idle_bytes_witness :
  readBytes doubling_slack [] loopPort readState_init [x41; x42] =
    Returned ([], loopPort,
      {| buf := buf readState_init ++ [x41; x42];
         controlCharacter := controlCharacter readState_init;
         isControlMessage := isControlMessage readState_init;
         startCharacterFound := startCharacterFound readState_init;
         byteIsEscaped := false;
         timerRunning := timerRunning readState_init |}).
Proof.
  apply (readBytes_idle_bytes doubling_slack [x41; x42] [] loopPort
           readState_init).
  - reflexivity.
  - repeat constructor; intros E; discriminate E.
  - simpl. unfold maxMessageSize. lia.
Defined.

(** X25: a frame built by the sender for [data], received by an idle
    parser with an empty buffer, reaches the data handler as [data]
    followed by the checksum the sender computed over
    [DLE STX escape(data)], the whole passed through [unescapeDLE] once
    more. *)
Theorem sender_frame_through_parser {S : Type} `{ReadWriteCloser S}
    (slack : nat -> nat -> nat) (v : crcValidator) (data : list byte)
    (h : heap) (p : Port S) (st : readState) :
  startCharacterFound st = false ->
  byteIsEscaped st = false ->
  buf st = [] ->
  length (data ++ Checksum v ([dle; stx] ++ escapeDLE data))
    <= maxMessageSize ->
  readBytes slack h p st (dataMessage v data) =
    match handleReceivedDataMessageBody slack h p
            (unescapeDLE
               (data ++ Checksum v ([dle; stx] ++ escapeDLE data))) with
    | Returned (h', p', _) =>
        Returned (h', p',
          {| buf := []; controlCharacter := controlCharacter st;
             isControlMessage := false; startCharacterFound := true;
             byteIsEscaped := false; timerRunning := false |})
    | Panicked => Panicked
    end.
Proof.
  intros Hstart Hesc Hbuf Hlen.
  rewrite dataMessage_layout, (app_assoc (escapeDLE data)), <- escapeDLE_app.
  rewrite (readBytes_data_frame slack _ h p st Hstart Hesc);
    rewrite Hbuf; [done|]. exact Hlen.
Qed.

Lemma sender_frame_through_parser_witness :
  readBytes doubling_slack [] loopPort readState_init
    (dataMessage crc16Validator [x41]) =
    match handleReceivedDataMessageBody doubling_slack [] loopPort
            (unescapeDLE
               ([x41] ++ Checksum crc16Validator
                           ([dle; stx] ++ escapeDLE [x41]))) with
    | Returned (h', p', _) =>
        Returned (h', p',
          {| buf := []; controlCharacter := controlCharacter readState_init;
             isControlMessage := false; startCharacterFound := true;
             byteIsEscaped := false; timerRunning := false |})
    | Panicked => Panicked
    end.
Proof.
  apply (sender_frame_through_parser doubling_slack crc16Validator [x41] []
           loopPort readState_init).
  - reflexivity.
  - reflexivity.
  - reflexivity.
  - apply Nat.leb_le. vm_compute. reflexivity.
Defined.

(** ** The control handler *)



(** ** From Write to the wire *)

(** X27: on an open port over an open loopback with an empty send queue,
    [Write(data)] followed by one round of the send loop puts exactly the
    frame of [data] on the wire when the first control message is an ACK;
    the send queue is empty again and the later control messages stay
    queued. *)
Theorem Write_then_send_on_loopback (p : Port Loopback.loopback)
    (data : list byte) (cm : controlMessage) (rest : list controlMessage) :
  isClosed p = false ->
  Loopback.isClosed (source p) = false ->
  writeDataChunkChan p = [] ->
  readControlMessageChan p = cm :: rest ->
  TypeCharacter cm = ack ->
  exists p',
    sendDataChunk (Port_Write p data).1 = Some (Acked p')
    /\ Loopback.buffer (source p')
       = Loopback.buffer (source p)
           ++ dataMessage (dataMessageCRCValidator p) data
    /\ writeDataChunkChan p' = []
    /\ readControlMessageChan p' = rest.
Proof.
  intros Hopen Hsrc Hqueue Hcms Hack.
  unfold Port_Write. rewrite Hopen. cbn [fst].
  unfold sendDataChunk. cbn [writeDataChunkChan set_writeDataChunkChan].
  rewrite Hqueue.
  cbn [app readControlMessageChan dataMessageCRCValidator
       set_writeDataChunkChan].
  rewrite Hcms.
  erewrite resendLoop_any_ack;
    [|by apply writeToSource_loopback_open|done].
  by eexists.
Qed.

Lemma Write_then_send_on_loopback_witness :
  exists p',
    sendDataChunk
      (Port_Write
         (set_readControlMessageChan loopPort
            [{| TypeCharacter := ack; MSN := x00 |}]) [x41]).1
    = Some (Acked p')
    /\ Loopback.buffer (source p')
       = Loopback.buffer
           (source (set_readControlMessageChan loopPort
                      [{| TypeCharacter := ack; MSN := x00 |}]))
           ++ dataMessage
                (dataMessageCRCValidator
                   (set_readControlMessageChan loopPort
                      [{| TypeCharacter := ack; MSN := x00 |}])) [x41]
    /\ writeDataChunkChan p' = []
    /\ readControlMessageChan p' = [].
Proof.
  apply (Write_then_send_on_loopback
           (set_readControlMessageChan loopPort
              [{| TypeCharacter := ack; MSN := x00 |}])
           [x41] {| TypeCharacter := ack; MSN := x00 |} []);
    reflexivity.
Defined.

(** ** Release of the reassembly buffer *)

(** X28: after a valid frame with [AppendFlag = 0] the reassembly buffer
    is the nil slice when the capacity it had before that frame exceeds
    10240 bytes, and otherwise the same array cut to length 0: the
    capacity that counts is the buffer's own, not that of the published
    slice. *)
Theorem buffer_released_above_capacity {S : Type} `{ReadWriteCloser S}
    (slack : nat -> nat -> nat) (h : heap) (p : Port S) (body : list byte) :
  valid_body p body = true ->
  is_terminal body = true ->
  exists h' p',
    handleReceivedDataMessageBody slack h p body = Returned (h', p', None)
    /\ readBinaryDataBuffer p'
       = (if releaseCapacity <? s_cap (readBinaryDataBuffer p)
          then nil_slice else reslice0 (readBinaryDataBuffer p)).
Proof.
  intros Hvalid Hterm.
  destruct (valid_body_split p body Hvalid)
    as (Hlen & Hcrc & pmsn & flag & Htake & Hflag).
  unfold is_terminal in Hterm. rewrite Hflag in Hterm.
  unfold handleReceivedDataMessageBody, dataMessageBody.
  rewrite Hlen, Hcrc, Htake, Hterm.
  destruct (go_append slack h (readBinaryDataBuffer p) (body_payload p body))
    as [h1 s1].
  cbv beta iota zeta.
  cbn [readBinaryDataBuffer set_readBinaryDataBuffer set_readDataChunkChan
       reslice0 s_cap].
  destruct (releaseCapacity <? s_cap (readBinaryDataBuffer p));
    by eexists _, _.
Qed.

Lemma buffer_released_above_capacity_witness :
  exists h' p',
    handleReceivedDataMessageBody doubling_slack [] loopPort
      (body_of x07 x00 [x41]) = Returned (h', p', None)
    /\ readBinaryDataBuffer p'
       = (if releaseCapacity <? s_cap (readBinaryDataBuffer loopPort)
          then nil_slice else reslice0 (readBinaryDataBuffer loopPort)).
Proof.
  apply (buffer_released_above_capacity doubling_slack [] loopPort
           (body_of x07 x00 [x41])).
  - vm_compute. reflexivity.
  - vm_compute. reflexivity.
Defined.

(** ** The parser never returns to the idle state by itself *)

Section ParserNeverIdle.
Context {S : Type} `{ReadWriteCloser S}.
Variable slack : nat -> nat -> nat.

Lemma readByte_keeps_start (h h' : heap) (p p' : Port S)
    (st st' : readState) (b : byte) :
  readByte slack h p st b = Returned (h', p', st') ->
  startCharacterFound st = true ->
  startCharacterFound st' = true.
Proof.
  unfold readByte. intros Hstep Hstart. rewrite Hstart in Hstep.
  destruct (negb (byteIsEscaped st) && Byte.eqb b dle);
    [by injection Hstep as _ _ <-|].
  rewrite andb_false_r in Hstep.
  destruct (byteIsEscaped st && Byte.eqb b etx).
  - destruct (isControlMessage st).
    + destruct (handleReceivedControlMessageBody _ _ _) as [[p1 e]|]; [|done].
      by injection Hstep as _ _ <-.
    + destruct (handleReceivedDataMessageBody _ _ _ _) as [[[h1 p1] e]|];
        [|done].
      by injection Hstep as _ _ <-.
  - by injection Hstep as _ _ <-.
Qed.

End ParserNeverIdle.

(** X29: once a start character has been found no received byte makes the
    parser search for a start character again, neither the end of a
    message nor a buffer overflow: [startCharacterFound] stays set over
    every sequence of bytes, and only the read timeout clears it. *)
Theorem readBytes_keeps_start {S : Type} `{ReadWriteCloser S}
    (slack : nat -> nat -> nat) (bs : list byte) (h h' : heap)
    (p p' : Port S) (st st' : readState) :
  readBytes slack h p st bs = Returned (h', p', st') ->
  startCharacterFound st = true ->
  startCharacterFound st' = true
  /\ startCharacterFound (readTimeout st') = false.
Proof.
  intros Hrun Hstart. split; [|done].
  revert h p st Hrun Hstart.
  induction bs as [|b bs IH]; intros h p st Hrun Hstart.
  - by injection Hrun as _ _ <-.
  - simpl in Hrun.
    destruct (readByte slack h p st b) as [[[h1 p1] st1]|] eqn:Hstep; [|done].
    eapply IH; [exact Hrun|]. by eapply readByte_keeps_start.
Qed.

Lemma readBytes_keeps_start_witness :
  startCharacterFound
    (readState_after [dle; stx; x01; dle; etx; x00; dle; stx]) = true
  /\ startCharacterFound
       (readTimeout (readState_after [dle; stx; x01; dle; etx; x00; dle; stx]))
     = false.
Proof.
  assert (Hrun : exists h' p',
             readBytes doubling_slack [] loopPort
               (readState_after [dle; stx])
               [x01; dle; etx; x00; dle; stx]
             = Returned (h', p',
                 readState_after [dle; stx; x01; dle; etx; x00; dle; stx])).
  { by eexists _, _. }
  destruct Hrun as (h' & p' & Hrun).
  apply (readBytes_keeps_start doubling_slack [x01; dle; etx; x00; dle; stx]
           [] h' loopPort p' (readState_after [dle; stx]) _ Hrun).
  reflexivity.
Defined.
